(** * useFetch: the request lifecycle of the hook in [src/index.js]

    The hook is a closure over React state ([url], [data], [loading],
    [error], [page]) and three refs ([cacheRef], [cancelRequestRef],
    [batchedRequestsRef]).  Its asynchronous parts are modelled as a
    transition system: the code that runs synchronously (the body of
    [fetchData] up to the [await], the continuation after the [await], the
    effect and its cleanup, [fetchPage], [fetchMore]) is a function on the
    state of the hook, and what the JavaScript runtime decides (which
    pending promise settles next and how, which timer fires next) is an
    [event] chosen by the environment. *)

From stdpp Require Import gmap strings list pretty.

#[local] Open Scope Z_scope.
#[local] Set Warnings "-register-all".

(** ** Values *)

(** The JSON-like values the hook stores in [data]: what [response.data]
    holds, what [transformData] and [onBatchedResponse] return, and the
    array [batchedRequestsRef.current]. *)
Inductive value : Type :=
| VNull
| VBool (b : bool)
| VNum (n : Z)
| VStr (s : string)
| VArr (items : list value).

(** JavaScript truthiness, as used by [cache && cacheRef.current[url]] and
    by [error.response?.data || '...']. *)
Definition truthy (v : value) : bool :=
  match v with
  | VNull => false
  | VBool b => b
  | VNum n => negb (n =? 0)
  | VStr s => negb (String.eqb s "")
  | VArr _ => true
  end.

(** A call of a caller-supplied function either returns or throws. *)
Inductive completion : Type :=
| Returns (v : value)
| Throws (msg : string).

(** ** Options *)

(** The destructured [initialOptions].  [method], [headers], [body] and
    [timeout] are handed to axios unchanged and never inspected by the hook,
    so they are not part of the model.  [onPageChange] and
    [onAuthenticationError] are called for their effect only: the model
    records whether they are provided and logs their calls.
    [onBatchedResponse] is assumed to return normally. *)
Record options : Type := {
  transformData : value → completion;
  retries : Z;
  retryDelay : Z;
  cache : bool;
  pollInterval : option Z;
  batchSize : Z;
  onPageChange : bool;
  onBatchedResponse : option (list value → value);
  onAuthenticationError : bool;
}.

(** ** What axios answers *)

Record response : Type := {
  status : Z;
  body : value;
}.

(** How the promise of [axios({...})] settles: fulfilled with a response
    whose [data] is given, rejected with an [AxiosError] (with a response
    for an HTTP error status, without one for a network failure, a timeout
    or a cancellation), or rejected with something that is not an
    [AxiosError]. *)
Inductive outcome : Type :=
| Fulfilled (data : value)
| AxiosError (resp : option response) (code : string)
| OtherError (msg : string).

(** What axios 1.x rejects with when the [signal] of the request is
    aborted: a [CanceledError], which is an [AxiosError] without a
    response. *)
Definition canceled : outcome := AxiosError None "ERR_CANCELED".

(** The object passed to [setError]. *)
Record error_info : Type := {
  message : value;
  err_status : option Z;
  type : string;
}.

(** ** Observable effects *)

Inductive effect : Type :=
| Axios (u : string) (signal : nat) (retryCount : Z)
| SetTimeout (delay : Z)
| OnAuthenticationError
| OnPageChange (pageNumber : Z).

(** ** The state of one mounted hook *)

(** A pending [fetchData(abortController, retryCount)] of the closure
    created in the render where [url] was [c_url]: either awaiting axios
    (in [inflight]) or waiting in [setTimeout] (in [timers], where
    [c_retryCount] is the count the call will be made with). *)
Record call : Type := {
  c_id : nat;
  c_url : string;
  c_signal : nat;
  c_retryCount : Z;
}.

Record hook : Type := {
  (* useState *)
  url : string;
  data : value;
  loading : bool;
  error : option error_info;
  page : Z;
  (* useRef *)
  cacheRef : gmap string value;
  batchedRequestsRef : list value;
  (* the effect that is installed: its AbortController and whether its
     setInterval is running *)
  controller : option nat;
  interval : bool;
  (* the runtime *)
  aborted : gset nat;
  inflight : list call;
  timers : list call;
  fresh : nat;
  trace : list effect;
}.

(** React state setters and ref assignments. *)

Definition setUrl (u : string) (st : hook) : hook :=
  {| url := u; data := data st; loading := loading st; error := error st;
     page := page st; cacheRef := cacheRef st;
     batchedRequestsRef := batchedRequestsRef st;
     controller := controller st; interval := interval st;
     aborted := aborted st; inflight := inflight st; timers := timers st;
     fresh := fresh st; trace := trace st |}.

Definition setData (v : value) (st : hook) : hook :=
  {| url := url st; data := v; loading := loading st; error := error st;
     page := page st; cacheRef := cacheRef st;
     batchedRequestsRef := batchedRequestsRef st;
     controller := controller st; interval := interval st;
     aborted := aborted st; inflight := inflight st; timers := timers st;
     fresh := fresh st; trace := trace st |}.

Definition setLoading (b : bool) (st : hook) : hook :=
  {| url := url st; data := data st; loading := b; error := error st;
     page := page st; cacheRef := cacheRef st;
     batchedRequestsRef := batchedRequestsRef st;
     controller := controller st; interval := interval st;
     aborted := aborted st; inflight := inflight st; timers := timers st;
     fresh := fresh st; trace := trace st |}.

Definition setError (e : option error_info) (st : hook) : hook :=
  {| url := url st; data := data st; loading := loading st; error := e;
     page := page st; cacheRef := cacheRef st;
     batchedRequestsRef := batchedRequestsRef st;
     controller := controller st; interval := interval st;
     aborted := aborted st; inflight := inflight st; timers := timers st;
     fresh := fresh st; trace := trace st |}.

Definition setPage (n : Z) (st : hook) : hook :=
  {| url := url st; data := data st; loading := loading st; error := error st;
     page := n; cacheRef := cacheRef st;
     batchedRequestsRef := batchedRequestsRef st;
     controller := controller st; interval := interval st;
     aborted := aborted st; inflight := inflight st; timers := timers st;
     fresh := fresh st; trace := trace st |}.

Definition set_cacheRef (m : gmap string value) (st : hook) : hook :=
  {| url := url st; data := data st; loading := loading st; error := error st;
     page := page st; cacheRef := m;
     batchedRequestsRef := batchedRequestsRef st;
     controller := controller st; interval := interval st;
     aborted := aborted st; inflight := inflight st; timers := timers st;
     fresh := fresh st; trace := trace st |}.

Definition set_batchedRequestsRef (l : list value) (st : hook) : hook :=
  {| url := url st; data := data st; loading := loading st; error := error st;
     page := page st; cacheRef := cacheRef st;
     batchedRequestsRef := l;
     controller := controller st; interval := interval st;
     aborted := aborted st; inflight := inflight st; timers := timers st;
     fresh := fresh st; trace := trace st |}.

Definition set_effect (c : option nat) (i : bool) (ab : gset nat) (st : hook) : hook :=
  {| url := url st; data := data st; loading := loading st; error := error st;
     page := page st; cacheRef := cacheRef st;
     batchedRequestsRef := batchedRequestsRef st;
     controller := c; interval := i;
     aborted := ab; inflight := inflight st; timers := timers st;
     fresh := fresh st; trace := trace st |}.

Definition set_pending (rs ts : list call) (n : nat) (st : hook) : hook :=
  {| url := url st; data := data st; loading := loading st; error := error st;
     page := page st; cacheRef := cacheRef st;
     batchedRequestsRef := batchedRequestsRef st;
     controller := controller st; interval := interval st;
     aborted := aborted st; inflight := rs; timers := ts;
     fresh := n; trace := trace st |}.

Definition log (e : effect) (st : hook) : hook :=
  {| url := url st; data := data st; loading := loading st; error := error st;
     page := page st; cacheRef := cacheRef st;
     batchedRequestsRef := batchedRequestsRef st;
     controller := controller st; interval := interval st;
     aborted := aborted st; inflight := inflight st; timers := timers st;
     fresh := fresh st; trace := trace st ++ [e] |}.

(** ** fetchData *)

(** The guard [cache && cacheRef.current[url]] of line 36: the cached value
    when the guard is truthy.  [cacheRef.current] is modelled as a finite
    map from locators to values; property names that a JavaScript object
    inherits from [Object.prototype] are outside the model. *)
Definition cache_hit (o : options) (u : string) (st : hook) : option value :=
  if cache o then
    match cacheRef st !! u with
    | Some v => if truthy v then Some v else None
    | None => None
    end
  else None.

(** [await axios({url, ..., signal: abortController.signal})]: the request
    is issued and the call is suspended until the promise settles. *)
Definition await_axios (u : string) (ac : nat) (retryCount : Z) (st : hook) : hook :=
  let c := {| c_id := fresh st; c_url := u; c_signal := ac;
              c_retryCount := retryCount |} in
  log (Axios u ac retryCount)
      (set_pending (c :: inflight st) (timers st) (S (fresh st)) st).

(** Lines 32-50: [fetchData(abortController, retryCount)] of the closure for
    [u], up to its first suspension. *)
Definition fetchData (o : options) (u : string) (ac : nat) (retryCount : Z)
    (st : hook) : hook :=
  let st := setLoading true st in
  let st := setError None st in
  match cache_hit o u st with
  | Some v => setLoading false (setData v st)
  | None => await_axios u ac retryCount st
  end.

(** Lines 88-91: the [catch] branch for an error that is not an
    [AxiosError]. *)
Definition general (msg : string) (st : hook) : hook :=
  setError (Some {| message := VStr msg; err_status := None;
                    type := "general" |}) st.

(** Line 64: what a full batch becomes. *)
Definition batchedResponse (o : options) (batch : list value) : value :=
  match onBatchedResponse o with
  | Some f => f batch
  | None => VArr batch
  end.

(** Lines 52-71: the rest of the [try] block once axios has answered with
    [response.data = raw]. *)
Definition fulfilled (o : options) (u : string) (raw : value) (st : hook) : hook :=
  match transformData o raw with
  | Throws msg => general msg st
  | Returns transformedData =>
      let st :=
        if batchSize o =? 1 then
          let st := setData transformedData st in
          if cache o
          then set_cacheRef (<[u := transformedData]> (cacheRef st)) st
          else st
        else
          let st :=
            set_batchedRequestsRef (batchedRequestsRef st ++ [transformedData]) st in
          if batchSize o <=? Z.of_nat (length (batchedRequestsRef st)) then
            set_batchedRequestsRef []
              (setData (batchedResponse o (batchedRequestsRef st)) st)
          else st in
      setError None st
  end.

(** [setTimeout(() => fetchData(abortController, retryCount + 1), delay)]:
    the timer id is not kept by the hook, so the timer cannot be cleared. *)
Definition setTimeout (c : call) (delay : Z) (st : hook) : hook :=
  let t := {| c_id := fresh st; c_url := c_url c; c_signal := c_signal c;
              c_retryCount := c_retryCount c + 1 |} in
  log (SetTimeout delay)
      (set_pending (inflight st) (t :: timers st) (S (fresh st)) st).

Definition is_aborted (ac : nat) (st : hook) : bool :=
  bool_decide (ac ∈ aborted st).

(** [error.response?.status === 401] *)
Definition is_401 (resp : option response) : bool :=
  match resp with
  | Some r => status r =? 401
  | None => false
  end.

(** The object of lines 81-85. *)
Definition axios_error_info (resp : option response) (code : string) : error_info :=
  {| message :=
       match resp with
       | Some r => if truthy (body r) then body r
                   else VStr "An unknown error occurred"
       | None => VStr "An unknown error occurred"
       end;
     err_status := status <$> resp;
     type := code |}.

(** Lines 73-86: the [catch] branch for an [AxiosError]. *)
Definition rejected (o : options) (c : call) (resp : option response)
    (code : string) (st : hook) : hook :=
  let st :=
    if is_401 resp && onAuthenticationError o
    then log OnAuthenticationError st else st in
  if c_retryCount c <? retries o then
    setTimeout c (retryDelay o * (c_retryCount c + 1)) st
  else if negb (is_aborted (c_signal c) st) then
    setError (Some (axios_error_info resp code)) st
  else st.

(** Lines 52-97: the continuation of [fetchData] after the [await], with
    the [finally] clause. *)
Definition settled (o : options) (c : call) (out : outcome) (st : hook) : hook :=
  let st :=
    match out with
    | Fulfilled raw => fulfilled o (c_url c) raw st
    | AxiosError resp code => rejected o c resp code st
    | OtherError msg => general msg st
    end in
  if c_retryCount c =? 0 then setLoading false st else st.

(** ** The effect *)

(** Lines 113-121.  [cancelRequestRef.current] holds a [CancelToken] source
    that is never handed to a request, so its [cancel()] has no effect on
    the hook and is not modelled. *)
Definition cleanup (st : hook) : hook :=
  match controller st with
  | Some ac => set_effect None false ({[ ac ]} ∪ aborted st) st
  | None => st
  end.

(** [pollInterval ? setInterval(...) : null] *)
Definition polls (o : options) : bool :=
  match pollInterval o with
  | Some n => negb (n =? 0)
  | None => false
  end.

(** Lines 102-122: React runs the cleanup of the previous run of the
    effect, then its body. *)
Definition useEffect (o : options) (st : hook) : hook :=
  let st := cleanup st in
  let abortController := fresh st in
  let st := set_pending (inflight st) (timers st) (S abortController) st in
  let st := set_effect (Some abortController) (polls o) (aborted st) st in
  fetchData o (url st) abortController 0 st.

(** After a state update React renders again, and the effect is run again
    when [url] is not the one of the previous render. *)
Definition rerender (o : options) (previous : string) (st : hook) : hook :=
  if String.eqb previous (url st) then st else useEffect o st.

(** Lines 124-132. *)
Definition fetchPage (o : options) (pageNumber : Z) (st : hook) : hook :=
  let previous := url st in
  let nextPageUrl := url st +:+ "?page=" +:+ pretty pageNumber in
  let st := setUrl nextPageUrl st in
  let st := setPage pageNumber st in
  let st := if onPageChange o then log (OnPageChange pageNumber) st else st in
  rerender o previous st.

(** Lines 134-137. *)
Definition fetchMore (o : options) (st : hook) : hook :=
  let nextPageNumber := page st + 1 in
  fetchPage o nextPageNumber st.

(** The state of the first render, and the hook once its effect has run. *)
Definition initial (initialUrl : string) : hook :=
  {| url := initialUrl; data := VNull; loading := true; error := None;
     page := 1; cacheRef := ∅; batchedRequestsRef := [];
     controller := None; interval := false; aborted := ∅;
     inflight := []; timers := []; fresh := 0; trace := [] |}.

Definition mount (o : options) (initialUrl : string) : hook :=
  useEffect o (initial initialUrl).

(** ** Events *)

(** What can happen to a mounted hook.  [Settles] and [TimerFires] name the
    pending call by its id; [Rerun] is a render in which a dependency of the
    effect other than [url] changed identity; [SetLocator] is [setUrl]
    followed by the render it causes. *)
Inductive event : Type :=
| Settles (id : nat) (out : outcome)
| TimerFires (id : nat)
| PollTick
| Rerun
| SetLocator (u : string)
| FetchPage (pageNumber : Z)
| FetchMore
| Unmount.

Fixpoint take_call (id : nat) (l : list call) : option (call * list call) :=
  match l with
  | [] => None
  | c :: l' =>
      if Nat.eqb (c_id c) id then Some (c, l')
      else match take_call id l' with
           | Some (c', rest) => Some (c', c :: rest)
           | None => None
           end
  end.

(** One step of the hook.  A request whose signal is aborted is rejected by
    axios with [canceled], whatever the server would have answered. *)
Definition step (o : options) (st : hook) (ev : event) : hook :=
  match ev with
  | Settles id out =>
      match take_call id (inflight st) with
      | Some (c, rest) =>
          let out := if is_aborted (c_signal c) st then canceled else out in
          settled o c out (set_pending rest (timers st) (fresh st) st)
      | None => st
      end
  | TimerFires id =>
      match take_call id (timers st) with
      | Some (c, rest) =>
          fetchData o (c_url c) (c_signal c) (c_retryCount c)
                    (set_pending (inflight st) rest (fresh st) st)
      | None => st
      end
  | PollTick =>
      match controller st with
      | Some ac => if interval st then fetchData o (url st) ac 0 st else st
      | None => st
      end
  | Rerun => useEffect o st
  | SetLocator u => rerender o (url st) (setUrl u st)
  | FetchPage pageNumber => fetchPage o pageNumber st
  | FetchMore => fetchMore o st
  | Unmount => cleanup st
  end.

Definition run (o : options) (evs : list event) (st : hook) : hook :=
  foldl (step o) st evs.

(** Projections of the trace. *)
Definition requests (st : hook) : list string :=
  omap (λ e, match e with Axios u _ _ => Some u | _ => None end) (trace st).

Definition delays (st : hook) : list Z :=
  omap (λ e, match e with SetTimeout d => Some d | _ => None end) (trace st).

Definition authentication_errors (st : hook) : nat :=
  length (omap (λ e, match e with OnAuthenticationError => Some () | _ => None end)
               (trace st)).



(** Ids are handed out in increasing order: the controllers that exist are
    older than the next id. *)
Definition ids_below (st : hook) : Prop :=
  (∀ ac, ac ∈ aborted st → (ac < fresh st)%nat)
  ∧ (∀ ac, controller st = Some ac → (ac < fresh st)%nat).

(** The events of a cycle whose every attempt is rejected with an
    [AxiosError]: the request with id [id] fails, the timer it schedules
    (the next id) fires, the request that sends (the id after) fails, and so
    on until the errors are used up. *)
Fixpoint failing_attempts (id : nat) (errs : list (option response * string))
    : list event :=
  match errs with
  | [] => []
  | e :: rest =>
      Settles id (AxiosError e.1 e.2)
      :: match rest with
         | [] => []
         | _ :: _ => TimerFires (S id) :: failing_attempts (S (S id)) rest
         end
  end.

(** ** Scenarios *)

(** The defaults of lines 6-18. *)
Definition defaults : options :=
  {| transformData := Returns; retries := 0; retryDelay := 1000;
     cache := false; pollInterval := None; batchSize := 1;
     onPageChange := false; onBatchedResponse := None;
     onAuthenticationError := false |}.

(** Caching switched on, and batches of two. *)
Definition cached : options :=
  {| transformData := Returns; retries := 0; retryDelay := 1000;
     cache := true; pollInterval := None; batchSize := 1;
     onPageChange := false; onBatchedResponse := None;
     onAuthenticationError := false |}.

Definition batched : options :=
  {| transformData := Returns; retries := 0; retryDelay := 1000;
     cache := true; pollInterval := None; batchSize := 2;
     onPageChange := false; onBatchedResponse := None;
     onAuthenticationError := false |}.

(** One retry. *)
Definition retrying : options :=
  {| transformData := Returns; retries := 1; retryDelay := 1000;
     cache := false; pollInterval := None; batchSize := 1;
     onPageChange := false; onBatchedResponse := None;
     onAuthenticationError := false |}.

(** One retry, caching, and polling faster than the retry delay. *)
Definition polling : options :=
  {| transformData := Returns; retries := 1; retryDelay := 1000;
     cache := true; pollInterval := Some 300; batchSize := 1;
     onPageChange := false; onBatchedResponse := None;
     onAuthenticationError := false |}.

(** An HTTP 500 answer, as axios reports it. *)
Definition http_500 : outcome :=
  AxiosError (Some {| status := 500; body := VNull |}) "ERR_BAD_RESPONSE".

(** ** Invariants of the runtime *)

(** Every suspended call: the requests awaiting axios and the retries
    waiting in [setTimeout]. *)
Definition pending (st : hook) : list call := inflight st ++ timers st.

(** Each suspended call belongs to the effect that is installed or to one
    whose signal is aborted, and the installed one is not aborted. *)
Definition single_cycle (st : hook) : Prop :=
  (∀ c, c ∈ pending st →
        controller st = Some (c_signal c) ∨ c_signal c ∈ aborted st)
  ∧ (∀ ac, controller st = Some ac → ac ∉ aborted st).

(** The ids of the suspended calls are older than the next id. *)
Definition pending_ids (st : hook) : Prop :=
  ∀ c, c ∈ pending st → (c_id c < fresh st)%nat.

Definition well_formed (st : hook) : Prop :=
  ids_below st ∧ pending_ids st ∧ single_cycle st.


(** The events that end the cycle in progress: the effect runs again or is
    cleaned up. *)
Definition restarts (ev : event) : bool :=
  match ev with
  | Rerun | FetchPage _ | FetchMore | Unmount => true
  | _ => false
  end.

(** The interval runs only for an installed effect, and only when
    [pollInterval] is truthy. *)
Definition interval_installed (o : options) (st : hook) : Prop :=
  interval st = true → polls o = true ∧ controller st ≠ None.

(** Nothing but first attempts: no timer was ever set and every request in
    flight has [retryCount = 0]. *)
Definition first_attempts_only (st : hook) : Prop :=
  timers st = [] ∧ delays st = []
  ∧ ∀ c, c ∈ inflight st → c_retryCount c = 0.

(** Lines 125-131: the state [fetchPage] leaves for the next render. *)
Definition paged (o : options) (pageNumber : Z) (st : hook) : hook :=
  let st := setUrl (url st +:+ "?page=" +:+ pretty pageNumber) st in
  let st := setPage pageNumber st in
  if onPageChange o then log (OnPageChange pageNumber) st else st.

(** Every locator a suspended call or a cache entry carries is one a
    request was sent to. *)
Definition all_requested (st : hook) : Prop :=
  (∀ c, c ∈ pending st → c_url c ∈ requests st)
  ∧ (∀ k, is_Some (cacheRef st !! k) → k ∈ requests st).


(** A rejection that carries an HTTP 401 answer. *)
Definition is_401_answer (ev : event) : bool :=
  match ev with
  | Settles _ (AxiosError resp _) => is_401 resp
  | _ => false
  end.

(** The events of a cycle that recovers: every error of [errs] is followed
    by the retry timer, and the last request is answered with [raw]. *)
Fixpoint recovering_attempts (id : nat) (errs : list (option response * string))
    (raw : value) : list event :=
  match errs with
  | [] => [Settles id (Fulfilled raw)]
  | e :: rest =>
      Settles id (AxiosError e.1 e.2) :: TimerFires (S id)
      :: recovering_attempts (S (S id)) rest raw
  end.

(** ** The earlier version of the hook *)

(** The hook of the second source file, which has [retries], [retryDelay],
    [cache] and [transformData] but neither polling, batching, the
    callbacks nor [fetchPage].  Its [fetchData] starts like the current one
    (lines 26-34 there), so [fetchData] is shared; the options it does not
    have are ignored. *)
Module Legacy.

(** Lines 45-52 of the earlier file. *)
Definition fulfilled (o : options) (u : string) (raw : value) (st : hook) : hook :=
  match transformData o raw with
  | Throws msg => general msg st
  | Returns transformedData =>
      let st := setData transformedData st in
      let st :=
        if cache o
        then set_cacheRef (<[u := transformedData]> (cacheRef st)) st
        else st in
      setError None st
  end.

(** Lines 54-63 of the earlier file. *)
Definition rejected (o : options) (c : call) (resp : option response)
    (code : string) (st : hook) : hook :=
  if c_retryCount c <? retries o then
    setTimeout c (retryDelay o * (c_retryCount c + 1)) st
  else if negb (is_aborted (c_signal c) st) then
    setError (Some (axios_error_info resp code)) st
  else st.

(** Lines 36-75 of the earlier file. *)
Definition settled (o : options) (c : call) (out : outcome) (st : hook) : hook :=
  let st :=
    match out with
    | Fulfilled raw => fulfilled o (c_url c) raw st
    | AxiosError resp code => rejected o c resp code st
    | OtherError msg => general msg st
    end in
  if c_retryCount c =? 0 then setLoading false st else st.

(** Lines 79-94 of the earlier file. *)
Definition useEffect (o : options) (st : hook) : hook :=
  let st := cleanup st in
  let abortController := fresh st in
  let st := set_pending (inflight st) (timers st) (S abortController) st in
  let st := set_effect (Some abortController) false (aborted st) st in
  fetchData o (url st) abortController 0 st.

Definition rerender (o : options) (previous : string) (st : hook) : hook :=
  if String.eqb previous (url st) then st else useEffect o st.

(** Lines 96-100 of the earlier file. *)
Definition fetchMore (o : options) (st : hook) : hook :=
  let previous := url st in
  let nextPageUrl := url st +:+ "?page=" +:+ pretty (page st + 1) in
  let nextPage := page st + 1 in
  let st := setUrl nextPageUrl st in
  let st := setPage nextPage st in
  rerender o previous st.

Definition mount (o : options) (initialUrl : string) : hook :=
  useEffect o (initial initialUrl).

(** The earlier hook has no interval and no [fetchPage]: those events do
    not exist for it. *)
Definition step (o : options) (st : hook) (ev : event) : hook :=
  match ev with
  | Settles id out =>
      match take_call id (inflight st) with
      | Some (c, rest) =>
          let out := if is_aborted (c_signal c) st then canceled else out in
          settled o c out (set_pending rest (timers st) (fresh st) st)
      | None => st
      end
  | TimerFires id =>
      match take_call id (timers st) with
      | Some (c, rest) =>
          fetchData o (c_url c) (c_signal c) (c_retryCount c)
                    (set_pending (inflight st) rest (fresh st) st)
      | None => st
      end
  | PollTick => st
  | Rerun => useEffect o st
  | SetLocator u => rerender o (url st) (setUrl u st)
  | FetchPage _ => st
  | FetchMore => fetchMore o st
  | Unmount => cleanup st
  end.

Definition run (o : options) (evs : list event) (st : hook) : hook :=
  foldl (step o) st evs.

End Legacy.

(** What the earlier hook does not have. *)
Definition in_legacy (ev : event) : bool :=
  match ev with
  | FetchPage _ => false
  | _ => true
  end.

(** * Properties *)

(** ** Strings *)

Lemma length_append (s t : string) :
  String.length (s +:+ t) = (String.length s + String.length t)%nat.
Proof. induction s as [|a s IH]; simpl; [done | by rewrite IH]. Qed.

Lemma append_page_differs (s t : string) :
  String.eqb s (s +:+ "?page=" +:+ t) = false.
Proof.
  apply String.eqb_neq. intros Heq.
  apply (f_equal String.length) in Heq.
  rewrite !length_append in Heq. simpl in Heq. lia.
Qed.

(** ** What each operation leaves alone *)

Lemma cache_hit_ext (o : options) (u : string) (st st' : hook) :
  cacheRef st' = cacheRef st → cache_hit o u st' = cache_hit o u st.
Proof. unfold cache_hit. by intros ->. Qed.

Lemma fetchData_miss (o : options) (u : string) (ac : nat) (k : Z) (st : hook) :
  cache_hit o u st = None →
  fetchData o u ac k st = await_axios u ac k (setError None (setLoading true st)).
Proof.
  intros Hmiss. unfold fetchData.
  by rewrite (cache_hit_ext o u st) by done; rewrite Hmiss.
Qed.

Lemma fetchData_hit (o : options) (u : string) (ac : nat) (k : Z) (st : hook) (v : value) :
  cache_hit o u st = Some v →
  fetchData o u ac k st
  = setLoading false (setData v (setError None (setLoading true st))).
Proof.
  intros Hhit. unfold fetchData.
  by rewrite (cache_hit_ext o u st) by done; rewrite Hhit.
Qed.

Lemma omap_snoc {A B} (f : A → option B) (l : list A) (x : A) :
  omap f (l ++ [x]) = omap f l ++ (match f x with Some y => [y] | None => [] end).
Proof.
  rewrite omap_app. simpl. by destruct (f x).
Qed.

Lemma requests_log (e : effect) (st : hook) :
  requests (log e st)
  = requests st ++ match e with Axios u _ _ => [u] | _ => [] end.
Proof. unfold requests. simpl. rewrite omap_snoc. by destruct e. Qed.

Lemma delays_log (e : effect) (st : hook) :
  delays (log e st)
  = delays st ++ match e with SetTimeout d => [d] | _ => [] end.
Proof. unfold delays. simpl. rewrite omap_snoc. by destruct e. Qed.


Lemma authentication_errors_log (e : effect) (st : hook) :
  authentication_errors (log e st)
  = (authentication_errors st
     + match e with OnAuthenticationError => 1 | _ => 0 end)%nat.
Proof.
  unfold authentication_errors. simpl. rewrite omap_snoc, length_app.
  by destruct e.
Qed.

(** The effect touches neither the state of pagination nor the refs. *)
Lemma cleanup_frame (st : hook) :
  url (cleanup st) = url st ∧ page (cleanup st) = page st
  ∧ cacheRef (cleanup st) = cacheRef st
  ∧ batchedRequestsRef (cleanup st) = batchedRequestsRef st
  ∧ trace (cleanup st) = trace st ∧ data (cleanup st) = data st
  ∧ fresh (cleanup st) = fresh st ∧ inflight (cleanup st) = inflight st
  ∧ timers (cleanup st) = timers st.
Proof. unfold cleanup. by destruct (controller st). Qed.

Lemma fetchData_frame (o : options) (u : string) (ac : nat) (k : Z) (st : hook) :
  url (fetchData o u ac k st) = url st
  ∧ page (fetchData o u ac k st) = page st
  ∧ cacheRef (fetchData o u ac k st) = cacheRef st
  ∧ batchedRequestsRef (fetchData o u ac k st) = batchedRequestsRef st
  ∧ aborted (fetchData o u ac k st) = aborted st
  ∧ controller (fetchData o u ac k st) = controller st
  ∧ interval (fetchData o u ac k st) = interval st.
Proof. unfold fetchData. by destruct (cache_hit _ _ _). Qed.

Lemma fetchData_requests (o : options) (u : string) (ac : nat) (k : Z) (st : hook) :
  requests (fetchData o u ac k st)
  = requests st ++ match cache_hit o u st with None => [u] | Some _ => [] end.
Proof.
  destruct (cache_hit o u st) as [v|] eqn:Hc.
  - rewrite (fetchData_hit _ _ _ _ _ _ Hc). unfold requests. simpl.
    by rewrite app_nil_r.
  - rewrite (fetchData_miss _ _ _ _ _ Hc). unfold await_axios.
    by rewrite requests_log.
Qed.

Lemma useEffect_frame (o : options) (st : hook) :
  url (useEffect o st) = url st ∧ page (useEffect o st) = page st
  ∧ cacheRef (useEffect o st) = cacheRef st
  ∧ batchedRequestsRef (useEffect o st) = batchedRequestsRef st.
Proof.
  unfold useEffect.
  destruct (cleanup_frame st) as (Hu & Hp & Hc & Hb & _).
  match goal with |- context [fetchData o ?u ?ac ?k ?s] =>
    destruct (fetchData_frame o u ac k s) as (-> & -> & -> & -> & _) end.
  simpl. by rewrite Hu, Hp, Hc, Hb.
Qed.

Lemma useEffect_requests (o : options) (st : hook) :
  requests (useEffect o st)
  = requests st
    ++ match cache_hit o (url st) st with None => [url st] | Some _ => [] end.
Proof.
  unfold useEffect. rewrite fetchData_requests.
  destruct (cleanup_frame st) as (Hu & _ & Hc & _ & Ht & _).
  simpl. rewrite Hu.
  rewrite (cache_hit_ext o (url st) st) by (simpl; done).
  unfold requests at 1. simpl. by rewrite Ht.
Qed.


(** C7.  An attempt that fails with HTTP status 401 calls
    [onAuthenticationError] exactly once when the callback is provided (and
    nothing is called when it is not), for every retry count, every
    [retries] and every state of the abort signal: whether a retry is
    scheduled next or the error becomes terminal plays no part. *)
Theorem authentication_error_called_once
    (o : options) (c : call) (r : response) (code : string) (st : hook) :
  status r = 401 →
  authentication_errors (settled o c (AxiosError (Some r) code) st)
  = (authentication_errors st
     + if onAuthenticationError o then 1 else 0)%nat.
Proof.
  intros H401. unfold settled, rejected, is_401. rewrite H401. simpl.
  assert (Hfin : ∀ s, authentication_errors
            (if c_retryCount c =? 0 then setLoading false s else s)
          = authentication_errors s) by (intros s; by destruct (_ =? _)).
  rewrite Hfin. clear Hfin.
  set (st1 := if onAuthenticationError o then _ else _).
  assert (Hst1 : authentication_errors st1
    = (authentication_errors st + if onAuthenticationError o then 1 else 0)%nat).
  { subst st1. destruct (onAuthenticationError o).
    - by rewrite authentication_errors_log.
    - lia. }
  destruct (c_retryCount c <? retries o).
  - unfold setTimeout. rewrite authentication_errors_log. simpl.
    unfold authentication_errors in *. simpl. rewrite Hst1. lia.
  - by destruct (negb _).
Qed.

(** The witness: a 401 on the first attempt, with one retry allowed. *)
Lemma authentication_error_called_once_witness :
  let o := {| transformData := Returns; retries := 1; retryDelay := 1000;
              cache := false; pollInterval := None; batchSize := 1;
              onPageChange := false; onBatchedResponse := None;
              onAuthenticationError := true |} in
  let c := {| c_id := 1; c_url := "/items"; c_signal := 0; c_retryCount := 0 |} in
  authentication_errors
    (settled o c (AxiosError (Some {| status := 401; body := VNull |}) "ERR_BAD_REQUEST")
             (mount o "/items"))
  = 1%nat.
Proof.
  intros o c.
  exact (authentication_error_called_once o c {| status := 401; body := VNull |}
           "ERR_BAD_REQUEST" (mount o "/items") eq_refl).
Defined.


(** ** The refs along a run *)

Lemma rerender_frame (o : options) (previous : string) (st : hook) :
  cacheRef (rerender o previous st) = cacheRef st
  ∧ batchedRequestsRef (rerender o previous st) = batchedRequestsRef st.
Proof.
  unfold rerender. destruct (String.eqb _ _); [done|].
  by destruct (useEffect_frame o st) as (_ & _ & -> & ->).
Qed.

Lemma fetchPage_frame (o : options) (n : Z) (st : hook) :
  cacheRef (fetchPage o n st) = cacheRef st
  ∧ batchedRequestsRef (fetchPage o n st) = batchedRequestsRef st.
Proof.
  unfold fetchPage.
  match goal with |- context [rerender o ?p ?s] =>
    destruct (rerender_frame o p s) as (-> & ->) end.
  by destruct (onPageChange o).
Qed.

Lemma rejected_frame (o : options) (c : call) (resp : option response)
    (code : string) (st : hook) :
  cacheRef (rejected o c resp code st) = cacheRef st
  ∧ batchedRequestsRef (rejected o c resp code st) = batchedRequestsRef st
  ∧ data (rejected o c resp code st) = data st
  ∧ aborted (rejected o c resp code st) = aborted st.
Proof.
  unfold rejected.
  destruct (is_401 resp && onAuthenticationError o);
    destruct (c_retryCount c <? retries o); simpl; try done;
    by destruct (negb _).
Qed.

Lemma finally_frame (c : call) (st : hook) :
  let st' := if c_retryCount c =? 0 then setLoading false st else st in
  cacheRef st' = cacheRef st
  ∧ batchedRequestsRef st' = batchedRequestsRef st
  ∧ data st' = data st ∧ error st' = error st ∧ trace st' = trace st
  ∧ aborted st' = aborted st ∧ inflight st' = inflight st
  ∧ timers st' = timers st ∧ fresh st' = fresh st.
Proof. simpl. by destruct (c_retryCount c =? 0). Qed.







(** ** Batching *)









(** C9.  Nothing that changes the locator or starts a cycle (the effect,
    [setUrl] and the render it causes, [fetchPage], [fetchMore]) touches
    [batchedRequestsRef], so results from different locators meet in one
    buffer: with batches of two, an answer [a] for [/items], then
    [fetchPage(2)] and an answer [b] for [/items?page=2], flush as the one
    value [[a, b]]. *)
Theorem batch_buffer_survives_locator_change :
  (∀ o st, batchedRequestsRef (useEffect o st) = batchedRequestsRef st)
  ∧ (∀ o u st,
       batchedRequestsRef (step o st (SetLocator u)) = batchedRequestsRef st)
  ∧ (∀ o n st, batchedRequestsRef (fetchPage o n st) = batchedRequestsRef st)
  ∧ (∀ o st, batchedRequestsRef (fetchMore o st) = batchedRequestsRef st)
  ∧ (∀ a b,
       let st1 := run batched [Settles 1 (Fulfilled a); FetchPage 2]
                      (mount batched "/items") in
       let st2 := step batched st1 (Settles 3 (Fulfilled b)) in
       url st1 = "/items?page=2"
       ∧ batchedRequestsRef st1 = [a]
       ∧ requests st2 = ["/items"; "/items?page=2"]
       ∧ data st2 = VArr [a; b]
       ∧ batchedRequestsRef st2 = []).
Proof.
  split; [|split; [|split; [|split]]].
  - intros o st. by destruct (useEffect_frame o st) as (_ & _ & _ & ->).
  - intros o u st. cbn [step].
    by destruct (rerender_frame o (url st) (setUrl u st)) as (_ & ->).
  - intros o n st. by destruct (fetchPage_frame o n st) as (_ & ->).
  - intros o st. unfold fetchMore.
    by destruct (fetchPage_frame o (page st + 1) st) as (_ & ->).
  - intros a b. vm_compute. done.
Qed.

(** ** Where the code departs from the specification *)

(** C1.  The retry timer of a superseded cycle still fires and writes the
    old locator's data.  With one retry, caching and polling: the first
    attempt for [/items] fails and schedules a retry; a poll tick fetches
    [/items] with answer [a]; [fetchPage(2)] moves to [/items?page=2], which
    aborts signal 0, and the new cycle's answer [b] becomes [data]; then the
    timer of the aborted cycle fires, finds [/items] in the cache and sets
    [data] back to [a].  Nothing is pending afterwards. *)
Theorem superseded_retry_overwrites_data :
  let st := run polling
              [Settles 1 http_500; PollTick; Settles 3 (Fulfilled (VStr "a"));
               FetchPage 2; Settles 5 (Fulfilled (VStr "b"))]
              (mount polling "/items") in
  let st' := step polling st (TimerFires 2) in
  (url st = "/items?page=2" ∧ data st = VStr "b" ∧ error st = None
   ∧ is_aborted 0 st = true
   ∧ timers st = [{| c_id := 2; c_url := "/items"; c_signal := 0;
                     c_retryCount := 1 |}])
  ∧ (url st' = "/items?page=2" ∧ data st' = VStr "a"
     ∧ inflight st' = [] ∧ timers st' = []).
Proof. vm_compute. done. Qed.

(** C3.  A retry raises [loading] again and nothing lowers it.  With one
    retry: the first attempt fails and [loading] goes to [false]; the retry
    timer fires and [fetchData] sets [loading] to [true]; the retry
    succeeds, its [retryCount] is 1, and [loading] stays [true] with
    nothing pending. *)
Theorem retry_raises_loading :
  let st0 := mount retrying "/items" in
  let st1 := step retrying st0 (Settles 1 http_500) in
  let st2 := step retrying st1 (TimerFires 2) in
  let st3 := step retrying st2 (Settles 3 (Fulfilled (VStr "a"))) in
  loading st0 = true ∧ loading st1 = false
  ∧ loading st2 = true
  ∧ (loading st3 = true ∧ data st3 = VStr "a"
     ∧ inflight st3 = [] ∧ timers st3 = []).
Proof. vm_compute. done. Qed.

(** C6.  A cancelled attempt is retried.  With one retry: the hook is
    mounted on [/items] and [fetchPage(2)] aborts signal 0 while the first
    request is in flight; that request then settles as cancelled, whatever
    the server answers, and a retry of the aborted cycle is scheduled after
    [retryDelay]; when its timer fires the request is sent again. *)
Theorem cancelled_attempt_is_retried (out : outcome) :
  let st := run retrying [FetchPage 2] (mount retrying "/items") in
  let st' := step retrying st (Settles 1 out) in
  let st'' := step retrying st' (TimerFires 4) in
  (is_aborted 0 st = true
   ∧ inflight st = [{| c_id := 3; c_url := "/items?page=2"; c_signal := 2;
                       c_retryCount := 0 |};
                    {| c_id := 1; c_url := "/items"; c_signal := 0;
                       c_retryCount := 0 |}])
  ∧ (delays st' = [1000]
     ∧ timers st' = [{| c_id := 4; c_url := "/items"; c_signal := 0;
                        c_retryCount := 1 |}])
  ∧ trace st'' = [Axios "/items" 0 0; Axios "/items?page=2" 2 0;
                  SetTimeout 1000; Axios "/items" 0 1].
Proof. vm_compute. done. Qed.

(** ** Ids along a run *)

Lemma ids_below_mono (st st' : hook) :
  aborted st' = aborted st → controller st' = controller st →
  (fresh st ≤ fresh st')%nat →
  ids_below st → ids_below st'.
Proof.
  intros Ha Hc Hf [Hab Hct]. split.
  - intros ac Hin. rewrite Ha in Hin. specialize (Hab ac Hin). lia.
  - intros ac Hac. rewrite Hc in Hac. specialize (Hct ac Hac). lia.
Qed.

Lemma fetchData_fresh (o : options) (u : string) (ac : nat) (k : Z) (st : hook) :
  (fresh st ≤ fresh (fetchData o u ac k st))%nat.
Proof. unfold fetchData. destruct (cache_hit _ _ _); simpl; lia. Qed.

Lemma settled_ids (o : options) (c : call) (out : outcome) (st : hook) :
  aborted (settled o c out st) = aborted st
  ∧ controller (settled o c out st) = controller st
  ∧ (fresh st ≤ fresh (settled o c out st))%nat.
Proof.
  unfold settled, fulfilled, rejected, general, setTimeout.
  repeat case_match; simpl; repeat split; try done; lia.
Qed.

Lemma cleanup_ids_below (st : hook) : ids_below st → ids_below (cleanup st).
Proof.
  intros Hst. unfold cleanup.
  destruct (controller st) as [ac|] eqn:Hc; [|done].
  destruct Hst as [Hab Hct]. split; simpl; [|done].
  intros ac' [->%elem_of_singleton|Hin]%elem_of_union; auto.
Qed.

Lemma useEffect_ids_below (o : options) (st : hook) :
  ids_below st → ids_below (useEffect o st).
Proof.
  intros Hst. apply cleanup_ids_below in Hst as [Hab Hct]. unfold useEffect.
  match goal with |- ids_below (fetchData o ?u ?ac ?k ?s) =>
    apply (ids_below_mono s);
      [by destruct (fetchData_frame o u ac k s) as (_ & _ & _ & _ & -> & _)
      |by destruct (fetchData_frame o u ac k s) as (_ & _ & _ & _ & _ & -> & _)
      |apply fetchData_fresh|] end.
  split; simpl.
  - intros ac Hin. specialize (Hab ac Hin). lia.
  - intros ac [= <-]. lia.
Qed.

Lemma rerender_ids_below (o : options) (previous : string) (st : hook) :
  ids_below st → ids_below (rerender o previous st).
Proof.
  unfold rerender. destruct (String.eqb _ _); [done|].
  apply useEffect_ids_below.
Qed.

Lemma step_ids_below (o : options) (st : hook) (ev : event) :
  ids_below st → ids_below (step o st ev).
Proof.
  intros Hst. destruct ev as [id out|id| | |u|n| |]; cbn [step].
  - destruct (take_call id (inflight st)) as [[c rest]|]; [|done].
    match goal with |- ids_below (settled o c ?out' ?s) =>
      destruct (settled_ids o c out' s) as (Ha & Hc & Hf);
      by apply (ids_below_mono st) end.
  - destruct (take_call id (timers st)) as [[c rest]|]; [|done].
    match goal with |- ids_below (fetchData o ?u ?ac ?k ?s) =>
      pose proof (fetchData_fresh o u ac k s) as Hf;
      destruct (fetchData_frame o u ac k s) as (_ & _ & _ & _ & Ha & Hc & _);
      by apply (ids_below_mono st) end.
  - destruct (controller st) as [ac|] eqn:Hctl; [|done].
    destruct (interval st); [|done].
    pose proof (fetchData_fresh o (url st) ac 0 st) as Hf.
    destruct (fetchData_frame o (url st) ac 0 st) as (_ & _ & _ & _ & Ha & Hc & _).
    apply (ids_below_mono st); [done| |done|done].
    by rewrite Hc.
  - by apply useEffect_ids_below.
  - by apply rerender_ids_below.
  - unfold fetchPage. apply rerender_ids_below.
    by destruct (onPageChange o).
  - unfold fetchMore, fetchPage. apply rerender_ids_below.
    by destruct (onPageChange o).
  - by apply cleanup_ids_below.
Qed.

Lemma run_ids_below (o : options) (evs : list event) (st : hook) :
  ids_below st → ids_below (run o evs st).
Proof.
  revert st. induction evs as [|ev evs IH]; intros st Hst; [done|].
  unfold run in *. simpl. by apply IH, step_ids_below.
Qed.

Lemma initial_ids_below (u : string) : ids_below (initial u).
Proof. split; simpl; [set_solver|done]. Qed.

(** ** Caching *)

Lemma take_call_head (c : call) (l : list call) :
  take_call (c_id c) (c :: l) = Some (c, l).
Proof. simpl. by rewrite Nat.eqb_refl. Qed.

(** A start that misses the cache sends one request, with a signal that is
    not aborted. *)
Lemma useEffect_miss (o : options) (st : hook) :
  ids_below st →
  cache_hit o (url st) st = None →
  inflight (useEffect o st)
  = {| c_id := S (fresh st); c_url := url st; c_signal := fresh st;
       c_retryCount := 0 |} :: inflight st
  ∧ is_aborted (fresh st) (useEffect o st) = false.
Proof.
  intros [Hab Hct] Hmiss. unfold useEffect.
  destruct (cleanup_frame st) as (Hu & _ & Hc & _ & _ & _ & Hf & Hi & _).
  rewrite fetchData_miss.
  2:{ simpl. rewrite Hu. by rewrite (cache_hit_ext o (url st) st). }
  simpl. rewrite Hu, Hf, Hi. split; [done|].
  unfold is_aborted. simpl. apply bool_decide_eq_false.
  unfold cleanup. destruct (controller st) as [ac|] eqn:Hctl; simpl.
  - intros [Heq%elem_of_singleton|Hin]%elem_of_union.
    + specialize (Hct _ eq_refl). lia.
    + specialize (Hab _ Hin). lia.
  - intros Hin. specialize (Hab _ Hin). lia.
Qed.

(** A start that hits the cache shows the cached value at once and leaves
    nothing pending. *)
Lemma useEffect_hit (o : options) (st : hook) (v : value) :
  cache_hit o (url st) st = Some v →
  data (useEffect o st) = v
  ∧ loading (useEffect o st) = false
  ∧ inflight (useEffect o st) = inflight st
  ∧ timers (useEffect o st) = timers st
  ∧ trace (useEffect o st) = trace st.
Proof.
  intros Hhit. unfold useEffect.
  destruct (cleanup_frame st) as (Hu & _ & Hc & _ & Ht & _ & _ & Hi & Htm).
  rewrite (fetchData_hit _ _ _ _ _ v).
  2:{ simpl. rewrite Hu. by rewrite (cache_hit_ext o (url st) st). }
  simpl. by rewrite Hi, Htm, Ht.
Qed.

(** A success on the [batchSize === 1] path with caching on. *)
Lemma settled_caches (o : options) (c : call) (raw v : value) (st : hook) :
  cache o = true → batchSize o = 1 → transformData o raw = Returns v →
  cacheRef (settled o c (Fulfilled raw) st) = <[c_url c := v]> (cacheRef st)
  ∧ url (settled o c (Fulfilled raw) st) = url st
  ∧ trace (settled o c (Fulfilled raw) st) = trace st
  ∧ inflight (settled o c (Fulfilled raw) st) = inflight st.
Proof.
  intros Hc HN Htd. unfold settled, fulfilled. rewrite Htd, Hc, HN. simpl.
  by destruct (c_retryCount c =? 0).
Qed.

(** C4, amended.  With [cache = true] and [batchSize = 1], in any state the
    hook reaches, when the effect starts a cycle on a locator that the cache
    does not answer for, its request succeeds with a transformed value that
    is truthy, and the effect starts a cycle on the same locator again: the
    two starts send one request in total; the second one sets [data] to the
    cached value and [loading] to [false] at once and leaves no new request
    or timer behind. *)
Theorem second_start_served_from_cache
    (o : options) (initialUrl : string) (evs : list event) (raw v : value) :
  cache o = true →
  batchSize o = 1 →
  transformData o raw = Returns v →
  truthy v = true →
  let st := run o evs (initial initialUrl) in
  cache_hit o (url st) st = None →
  let st1 := step o st Rerun in
  let st2 := step o st1 (Settles (S (fresh st)) (Fulfilled raw)) in
  let st3 := step o st2 Rerun in
  requests st3 = requests st ++ [url st]
  ∧ data st3 = v
  ∧ loading st3 = false
  ∧ inflight st3 = inflight st ∧ timers st3 = timers st2.
Proof.
  intros Hc HN Htd Hv st Hmiss st1 st2 st3.
  assert (Hids : ids_below st)
    by (subst st; apply run_ids_below, initial_ids_below).
  destruct (useEffect_miss o st Hids Hmiss) as (Hin1 & Hab1).
  fold (step o st Rerun) in Hin1, Hab1. fold st1 in Hin1, Hab1.
  assert (Hr1 : requests st1 = requests st ++ [url st]).
  { subst st1. cbn [step]. by rewrite useEffect_requests, Hmiss. }
  assert (Hu1 : url st1 = url st).
  { subst st1. cbn [step]. by destruct (useEffect_frame o st) as (-> & _). }
  set (c := {| c_id := S (fresh st); c_url := url st; c_signal := fresh st;
               c_retryCount := 0 |}) in *.
  assert (Hst2 : st2 = settled o c (Fulfilled raw)
                         (set_pending (inflight st) (timers st1) (fresh st1) st1)).
  { subst st2. cbn [step]. rewrite Hin1.
    change (S (fresh st)) with (c_id c). rewrite take_call_head.
    change (c_signal c) with (fresh st). by rewrite Hab1. }
  destruct (settled_caches o c raw v
              (set_pending (inflight st) (timers st1) (fresh st1) st1) Hc HN Htd)
    as (Hc2 & Hu2 & Ht2 & Hi2).
  rewrite <-Hst2 in Hc2, Hu2, Ht2, Hi2. simpl in Hc2, Hu2, Ht2, Hi2.
  assert (Hhit : cache_hit o (url st2) st2 = Some v).
  { unfold cache_hit. rewrite Hc, Hc2, Hu2, Hu1, lookup_insert_eq. by rewrite Hv. }
  destruct (useEffect_hit o st2 v Hhit) as (Hd3 & Hl3 & Hi3 & Htm3 & Ht3).
  subst st3. cbn [step]. rewrite Hd3, Hl3, Hi3, Htm3, Hi2.
  repeat split; try done.
  unfold requests at 1. rewrite Ht3, Ht2. exact Hr1.
Qed.

(** The witness: the first mount, an answer for [/items], the effect again. *)
Lemma second_start_served_from_cache_witness :
  let st3 := run cached [Rerun; Settles 1 (Fulfilled (VStr "a")); Rerun]
                 (initial "/items") in
  requests st3 = ["/items"] ∧ data st3 = VStr "a" ∧ loading st3 = false.
Proof.
  destruct (second_start_served_from_cache cached "/items" [] (VStr "a") (VStr "a")
              eq_refl eq_refl eq_refl eq_refl eq_refl) as (Hr & Hd & Hl & _).
  repeat split; assumption.
Defined.

(** C4 as stated fails: with batches of two the cache is never written, and
    with [batchSize = 1] an answer that is falsy ([0] here) is stored but
    never found by the truthiness test of line 36; in both cases the second
    start sends a second request. *)
Lemma second_start_can_refetch :
  requests (run batched [Settles 1 (Fulfilled (VStr "a")); Rerun]
                (mount batched "/items"))
  = ["/items"; "/items"]
  ∧ requests (run cached [Settles 1 (Fulfilled (VNum 0)); Rerun]
                  (mount cached "/items"))
    = ["/items"; "/items"].
Proof. vm_compute. done. Qed.

(** ** Retries *)

(** With the defaults nothing is retried: one rejected request sets [error]
    and lowers [loading], and no timer is set. *)
Example defaults_fail_at_once :
  let st := step defaults (mount defaults "/items") (Settles 1 http_500) in
  requests st = ["/items"] ∧ delays st = [] ∧ loading st = false
  ∧ error st = Some {| message := VStr "An unknown error occurred";
                       err_status := Some 500; type := "ERR_BAD_RESPONSE" |}.
Proof. vm_compute. done. Qed.

(** A rejected attempt with retries left: a timer, and no error. *)
Lemma settles_then_retries (o : options) (c : call) (tl : list call)
    (resp : option response) (code : string) (st : hook) :
  inflight st = c :: tl →
  is_aborted (c_signal c) st = false →
  c_retryCount c < retries o →
  let st1 := step o st (Settles (c_id c) (AxiosError resp code)) in
  timers st1 = {| c_id := fresh st; c_url := c_url c; c_signal := c_signal c;
                  c_retryCount := c_retryCount c + 1 |} :: timers st
  ∧ fresh st1 = S (fresh st)
  ∧ error st1 = error st
  ∧ requests st1 = requests st
  ∧ delays st1 = delays st ++ [retryDelay o * (c_retryCount c + 1)]
  ∧ aborted st1 = aborted st
  ∧ cacheRef st1 = cacheRef st.
Proof.
  intros Hin Hab Hk st1. subst st1. cbn [step].
  rewrite Hin, take_call_head, Hab. unfold settled, rejected.
  apply Z.ltb_lt in Hk. rewrite Hk.
  destruct (is_401 resp && onAuthenticationError o);
    destruct (c_retryCount c =? 0); simpl;
    unfold requests, delays; simpl; rewrite ?omap_app; simpl;
    by rewrite ?app_nil_r.
Qed.

(** A rejected attempt with no retry left, for a signal that is not
    aborted: the error. *)
Lemma settles_then_gives_up (o : options) (c : call) (tl : list call)
    (resp : option response) (code : string) (st : hook) :
  inflight st = c :: tl →
  is_aborted (c_signal c) st = false →
  retries o ≤ c_retryCount c →
  let st1 := step o st (Settles (c_id c) (AxiosError resp code)) in
  error st1 = Some (axios_error_info resp code)
  ∧ requests st1 = requests st
  ∧ delays st1 = delays st.
Proof.
  intros Hin Hab Hk st1. subst st1. cbn [step].
  rewrite Hin, take_call_head, Hab. unfold settled, rejected.
  apply Z.ltb_ge in Hk. rewrite Hk.
  unfold is_aborted in *.
  destruct (is_401 resp && onAuthenticationError o); simpl; rewrite Hab; simpl;
    destruct (c_retryCount c =? 0); simpl;
    unfold requests, delays; simpl; rewrite ?omap_app; simpl;
    by rewrite ?app_nil_r.
Qed.

(** A retry timer that fires, with nothing in the cache: a request. *)
Lemma timer_fires_then_requests (o : options) (t : call) (tl : list call) (st : hook) :
  timers st = t :: tl →
  cache_hit o (c_url t) st = None →
  let st2 := step o st (TimerFires (c_id t)) in
  inflight st2 = {| c_id := fresh st; c_url := c_url t; c_signal := c_signal t;
                    c_retryCount := c_retryCount t |} :: inflight st
  ∧ fresh st2 = S (fresh st)
  ∧ error st2 = None
  ∧ requests st2 = requests st ++ [c_url t]
  ∧ delays st2 = delays st
  ∧ aborted st2 = aborted st
  ∧ cacheRef st2 = cacheRef st.
Proof.
  intros Htm Hmiss st2. subst st2. cbn [step].
  rewrite Htm, take_call_head. rewrite fetchData_miss.
  2:{ by rewrite (cache_hit_ext o (c_url t) st). }
  simpl. unfold requests, delays. simpl. rewrite !omap_app. simpl.
  by rewrite app_nil_r.
Qed.

(** The attempts of a cycle from the attempt numbered [k] on, all
    rejected. *)
Lemma failing_chain (o : options) (u : string) (ac : nat)
    (errs : list (option response * string)) :
  ∀ (k : Z) (id : nat) (tl : list call) (st : hook),
    errs ≠ [] →
    k + Z.of_nat (length errs) = retries o + 1 →
    inflight st = {| c_id := id; c_url := u; c_signal := ac;
                     c_retryCount := k |} :: tl →
    fresh st = S id →
    is_aborted ac st = false →
    cache_hit o u st = None →
    error st = None →
    let evs := failing_attempts id errs in
    requests (run o evs st) = requests st ++ replicate (length errs - 1) u
    ∧ delays (run o evs st)
      = delays st
        ++ ((λ j, retryDelay o * j) <$> seqZ (k + 1) (Z.of_nat (length errs) - 1))
    ∧ error (run o evs st) = (λ e, axios_error_info e.1 e.2) <$> last errs
    ∧ (∀ j, (j < length evs)%nat → error (run o (take j evs) st) = None).
Proof.
  induction errs as [|e rest IH]; intros k id tl st Hne Hlen Hin Hfresh Hab Hmiss Herr;
    [done|].
  set (c := {| c_id := id; c_url := u; c_signal := ac; c_retryCount := k |}) in *.
  destruct rest as [|e' rest'].
  - (* the last attempt *)
    simpl in Hlen.
    destruct (settles_then_gives_up o c tl e.1 e.2 st Hin Hab) as (He & Hr & Hd);
      [simpl; lia|].
    change (c_id c) with id in *.
    unfold run. cbn [failing_attempts foldl].
    set (st1 := step o st (Settles id (AxiosError e.1 e.2))) in *.
    rewrite He, Hr, Hd. simpl. rewrite !app_nil_r. repeat split; try done.
    intros j Hj. by replace j with 0%nat by lia.
  - (* an attempt that is retried *)
    assert (Hk : k < retries o) by (simpl in Hlen; lia).
    destruct (settles_then_retries o c tl e.1 e.2 st Hin Hab Hk)
      as (Htm & Hf1 & He1 & Hr1 & Hd1 & Hab1 & Hc1).
    change (c_id c) with id in *. change (c_url c) with u in *.
    change (c_signal c) with ac in *. change (c_retryCount c) with k in *.
    set (st1 := step o st (Settles id (AxiosError e.1 e.2))) in *.
    set (t := {| c_id := fresh st; c_url := u; c_signal := ac;
                 c_retryCount := k + 1 |}) in *.
    destruct (timer_fires_then_requests o t (timers st) st1 Htm)
      as (Hin2 & Hf2 & He2 & Hr2 & Hd2 & Hab2 & Hc2).
    { rewrite (cache_hit_ext o u st); done. }
    change (c_id t) with (fresh st) in *. change (c_url t) with u in *.
    change (c_signal t) with ac in *. change (c_retryCount t) with (k + 1) in *.
    rewrite Hfresh in *.
    set (st2 := step o st1 (TimerFires (S id))) in *.
    destruct (IH (k + 1) (S (S id)) (inflight st1) st2) as (Hr & Hd & He & Hpre).
    + done.
    + simpl in Hlen |- *. lia.
    + rewrite Hin2, Hf1. done.
    + by rewrite Hf2, Hf1.
    + unfold is_aborted in *. by rewrite Hab2, Hab1.
    + rewrite (cache_hit_ext o u st); [done|]. by rewrite Hc2, Hc1.
    + done.
    + change (failing_attempts id (e :: e' :: rest'))
        with (Settles id (AxiosError e.1 e.2) :: TimerFires (S id)
              :: failing_attempts (S (S id)) (e' :: rest')).
      unfold run in *. cbn [foldl]. fold st1. fold st2.
      rewrite Hr, Hd, He, Hr2, Hr1, Hd2, Hd1.
      rewrite <-!app_assoc.
      repeat split.
      * f_equal. simpl. by rewrite Nat.sub_0_r.
      * f_equal. rewrite (seqZ_cons (k + 1)) by (simpl; lia).
        simpl.
        replace (Z.succ (k + 1)) with (k + 1 + 1) by lia.
        replace (Z.pred (Z.of_nat (S (S (length rest'))) - 1))
          with (Z.of_nat (S (length rest')) - 1) by lia.
        done.
      * intros [|[|j]] Hj; cbn [take foldl]; fold st1; fold st2.
        -- done.
        -- by rewrite He1.
        -- apply Hpre. cbn [length] in Hj. lia.
Qed.

(** C2.  A cycle whose every attempt is rejected with a transport error,
    with [retries = R >= 0] and nothing superseding it: it sends exactly
    [R + 1] requests to its locator, the timers it sets are
    [retryDelay * 1, ..., retryDelay * R] in this order (none when
    [R = 0]), [error] is [null] at every point before the last rejection,
    and the last rejection sets [error] from the last error. *)
Theorem persistent_failure_retries_linearly
    (o : options) (u : string) (ac : nat)
    (errs : list (option response * string)) (st : hook) :
  0 ≤ retries o →
  Z.of_nat (length errs) = retries o + 1 →
  cache_hit o u st = None →
  is_aborted ac st = false →
  let st0 := fetchData o u ac 0 st in
  let evs := failing_attempts (fresh st) errs in
  let st' := run o evs st0 in
  requests st' = requests st ++ replicate (length errs) u
  ∧ Z.of_nat (length (requests st')) = Z.of_nat (length (requests st)) + (retries o + 1)
  ∧ delays st' = delays st ++ ((λ j, retryDelay o * j) <$> seqZ 1 (retries o))
  ∧ (∀ j, (j < length evs)%nat → error (run o (take j evs) st0) = None)
  ∧ ∃ e, last errs = Some e ∧ error st' = Some (axios_error_info e.1 e.2).
Proof.
  intros HR Hlen Hmiss Hab st0 evs st'.
  assert (Hne : errs ≠ []) by (intros ->; simpl in Hlen; lia).
  assert (Hst0 : st0 = await_axios u ac 0 (setError None (setLoading true st)))
    by (by apply fetchData_miss).
  destruct (failing_chain o u ac errs 0 (fresh st) (inflight st) st0)
    as (Hr & Hd & He & Hpre); try done.
  - by rewrite Hst0.
  - by rewrite Hst0.
  - by rewrite Hst0.
  - by rewrite Hst0, (cache_hit_ext o u st).
  - by rewrite Hst0.
  - fold evs in Hr, Hd, He, Hpre. fold st' in Hr, Hd, He.
    assert (Hr0 : requests st0 = requests st ++ [u]).
    { rewrite Hst0. unfold await_axios. by rewrite requests_log. }
    assert (Hd0 : delays st0 = delays st).
    { rewrite Hst0. unfold await_axios. rewrite delays_log. by rewrite app_nil_r. }
    assert (Hreq : requests st' = requests st ++ replicate (length errs) u).
    { rewrite Hr, Hr0, <-app_assoc. f_equal.
      destruct errs as [|e errs]; [done|]. simpl. by rewrite Nat.sub_0_r. }
    split; [done|]. split.
    { rewrite Hreq, length_app, length_replicate. lia. }
    split.
    { rewrite Hd, Hd0.
      by replace (Z.of_nat (length errs) - 1) with (retries o) by lia. }
    split; [done|].
    destruct (last errs) as [e|] eqn:Hlast.
    + by exists e.
    + by apply last_None in Hlast.
Qed.

(** The witness: [retries = 2], [retryDelay = 100], three HTTP 500 answers
    after the mount on [/items]. *)
Lemma persistent_failure_retries_linearly_witness :
  let o := {| transformData := Returns; retries := 2; retryDelay := 100;
              cache := false; pollInterval := None; batchSize := 1;
              onPageChange := false; onBatchedResponse := None;
              onAuthenticationError := false |} in
  let e := (Some {| status := 500; body := VNull |}, "ERR_BAD_RESPONSE") in
  let st' := run o (failing_attempts 1 [e; e; e]) (mount o "/items") in
  requests st' = ["/items"; "/items"; "/items"]
  ∧ delays st' = [100; 200]
  ∧ error st' = Some {| message := VStr "An unknown error occurred";
                        err_status := Some 500; type := "ERR_BAD_RESPONSE" |}.
Proof.
  intros o e st'.
  destruct (persistent_failure_retries_linearly o "/items" 0 [e; e; e]
              (set_effect (Some 0%nat) false ∅
                 (set_pending [] [] 1 (initial "/items"))))
    as (Hr & _ & Hd & _ & e' & Hlast & He).
  - simpl. lia.
  - reflexivity.
  - reflexivity.
  - reflexivity.
  - injection Hlast as <-. repeat split; assumption.
Defined.

(** * Further properties of the hook *)

#[local] Set Warnings "-clear-no-such-hyp".

(** ** Suspended calls *)

Lemma take_call_Some (id : nat) (l : list call) (c : call) (rest : list call) :
  take_call id l = Some (c, rest) →
  c_id c = id ∧ c ∈ l
  ∧ (∀ x, x ∈ rest → x ∈ l)
  ∧ (∀ x, x ∈ l → x = c ∨ x ∈ rest).
Proof.
  revert c rest. induction l as [|a l IH]; intros c rest; simpl; [done|].
  destruct (Nat.eqb (c_id a) id) eqn:Hid.
  - intros [= <- <-]. apply Nat.eqb_eq in Hid.
    repeat split; [done|set_solver..].
  - destruct (take_call id l) as [[c' rest']|]; [|done].
    intros [= <- <-]. destruct (IH c' rest' eq_refl) as (? & ? & ? & Hcases).
    repeat split; [done|set_solver|set_solver|].
    intros x [->|Hx]%elem_of_cons; [set_solver|].
    destruct (Hcases x Hx); set_solver.
Qed.

Lemma take_call_None (id : nat) (l : list call) :
  take_call id l = None → ∀ c, c ∈ l → c_id c ≠ id.
Proof.
  induction l as [|a l IH]; simpl; [set_solver|].
  destruct (Nat.eqb (c_id a) id) eqn:Hid; [done|].
  destruct (take_call id l) as [[c' rest']|]; [done|].
  intros _ c [->|Hc]%elem_of_cons; [by apply Nat.eqb_neq|by apply IH].
Qed.

(** [fetchData] either answers from the cache or sends a request. *)
Lemma fetchData_cases (o : options) (u : string) (ac : nat) (k : Z) (st : hook) :
  (∃ v, cache_hit o u st = Some v
        ∧ fetchData o u ac k st
          = setLoading false (setData v (setError None (setLoading true st))))
  ∨ (cache_hit o u st = None
     ∧ fetchData o u ac k st
       = await_axios u ac k (setError None (setLoading true st))).
Proof.
  destruct (cache_hit o u st) as [v|] eqn:Hc.
  - left. exists v. split; [done|]. by apply fetchData_hit.
  - right. split; [done|]. by apply fetchData_miss.
Qed.

(** What settling a call does to the suspended calls: no request is added,
    and at most the retry of the same call is scheduled. *)
Lemma settled_pending (o : options) (c : call) (out : outcome) (st : hook) :
  inflight (settled o c out st) = inflight st
  ∧ (timers (settled o c out st) = timers st
       ∧ fresh (settled o c out st) = fresh st
     ∨ timers (settled o c out st)
       = {| c_id := fresh st; c_url := c_url c; c_signal := c_signal c;
            c_retryCount := c_retryCount c + 1 |} :: timers st
       ∧ fresh (settled o c out st) = S (fresh st)).
Proof.
  unfold settled, fulfilled, rejected, general, setTimeout.
  repeat case_match; simpl; split; try done; try (by left); by right.
Qed.

Lemma cleanup_well_formed (st : hook) : well_formed st → well_formed (cleanup st).
Proof.
  intros Hst. pose proof Hst as (Hids & Hpid & Hown & Hcur).
  split; [by apply cleanup_ids_below|].
  unfold cleanup. destruct (controller st) as [ac|] eqn:Hc; [|by destruct Hst].
  unfold pending_ids, single_cycle, pending in *. simpl.
  split; [done|]. split; [|done].
  intros c Hin. right. destruct (Hown c Hin) as [[= ->]|Hab]; set_solver.
Qed.

Lemma fetchData_well_formed (o : options) (u : string) (ac : nat) (k : Z) (st : hook) :
  controller st = Some ac ∨ ac ∈ aborted st →
  well_formed st → well_formed (fetchData o u ac k st).
Proof.
  intros Hac (Hids & Hpid & Hown & Hcur).
  destruct (fetchData_cases o u ac k st) as [(v & _ & ->)|(_ & ->)].
  - done.
  - unfold well_formed, ids_below, pending_ids, single_cycle, pending in *.
    simpl. destruct Hids as [Hab Hct].
    repeat split.
    + intros a Ha. specialize (Hab a Ha). lia.
    + intros a Ha. specialize (Hct a Ha). lia.
    + intros c [->|Hin]%elem_of_cons; simpl; [lia|].
      specialize (Hpid c Hin). lia.
    + intros c [->|Hin]%elem_of_cons; simpl; [done|]. by apply Hown.
    + done.
Qed.

Lemma useEffect_well_formed (o : options) (st : hook) :
  well_formed st → well_formed (useEffect o st).
Proof.
  intros Hst. apply cleanup_well_formed in Hst as (Hids & Hpid & Hown & Hcur).
  unfold useEffect. apply fetchData_well_formed; [by left|].
  unfold well_formed, ids_below, pending_ids, single_cycle, pending in *.
  simpl. destruct Hids as [Hab Hct].
  assert (Hnone : controller (cleanup st) = None)
    by (unfold cleanup; by destruct (controller st) eqn:?).
  repeat split.
  - intros a Ha. specialize (Hab a Ha). lia.
  - intros a [= <-]. lia.
  - intros c Hin. specialize (Hpid c Hin). lia.
  - intros c Hin. destruct (Hown c Hin) as [Hc|Hc]; [congruence|by right].
  - intros a [= <-] Ha. specialize (Hab _ Ha). lia.
Qed.

Lemma rerender_well_formed (o : options) (previous : string) (st : hook) :
  well_formed st → well_formed (rerender o previous st).
Proof.
  unfold rerender. destruct (String.eqb _ _); [done|].
  apply useEffect_well_formed.
Qed.

Lemma settled_well_formed (o : options) (c : call) (out : outcome) (st : hook) :
  controller st = Some (c_signal c) ∨ c_signal c ∈ aborted st →
  (c_id c < fresh st)%nat →
  well_formed st → well_formed (settled o c out st).
Proof.
  intros Hc Hid (Hids & Hpid & Hown & Hcur).
  destruct (settled_ids o c out st) as (Ha & Hct & Hf).
  destruct (settled_pending o c out st) as (Hin & Htm).
  split; [by apply (ids_below_mono st)|].
  unfold pending_ids, single_cycle, pending in *. rewrite Hin, Ha, Hct.
  destruct Htm as [[-> ->]|[-> ->]]; [done|].
  split; [|split; [|done]].
  - intros x [Hx|[->|Hx]%elem_of_cons]%elem_of_app; simpl.
    + assert (c_id x < fresh st)%nat by (apply Hpid; set_solver). lia.
    + lia.
    + assert (c_id x < fresh st)%nat by (apply Hpid; set_solver). lia.
  - intros x [Hx|[->|Hx]%elem_of_cons]%elem_of_app; simpl;
      [apply Hown; set_solver|done|apply Hown; set_solver].
Qed.

Lemma step_well_formed (o : options) (st : hook) (ev : event) :
  well_formed st → well_formed (step o st ev).
Proof.
  intros Hst. destruct ev as [id out|id| | |u|n| |]; cbn [step].
  - destruct (take_call id (inflight st)) as [[c rest]|] eqn:Htake; [|done].
    destruct (take_call_Some _ _ _ _ Htake) as (_ & Hc & Hrest & _).
    destruct Hst as (Hids & Hpid & Hown & Hcur).
    apply settled_well_formed; simpl.
    + apply Hown. unfold pending. set_solver.
    + apply Hpid. unfold pending. set_solver.
    + split; [done|]. unfold pending_ids, single_cycle, pending in *. simpl.
      split; [|split; [|done]]; intros x Hx; [apply Hpid|apply Hown]; set_solver.
  - destruct (take_call id (timers st)) as [[c rest]|] eqn:Htake; [|done].
    destruct (take_call_Some _ _ _ _ Htake) as (_ & Hc & Hrest & _).
    destruct Hst as (Hids & Hpid & Hown & Hcur).
    apply fetchData_well_formed; simpl.
    + apply Hown. unfold pending. set_solver.
    + split; [done|]. unfold pending_ids, single_cycle, pending in *. simpl.
      split; [|split; [|done]]; intros x Hx; [apply Hpid|apply Hown]; set_solver.
  - destruct (controller st) as [ac|] eqn:Hctl; [|done].
    destruct (interval st); [|done].
    apply fetchData_well_formed; [by left|done].
  - by apply useEffect_well_formed.
  - by apply rerender_well_formed.
  - unfold fetchPage. apply rerender_well_formed.
    by destruct (onPageChange o).
  - unfold fetchMore, fetchPage. apply rerender_well_formed.
    by destruct (onPageChange o).
  - by apply cleanup_well_formed.
Qed.

Lemma run_well_formed (o : options) (evs : list event) (st : hook) :
  well_formed st → well_formed (run o evs st).
Proof.
  revert st. induction evs as [|ev evs IH]; intros st Hst; [done|].
  unfold run in *. simpl. by apply IH, step_well_formed.
Qed.

Lemma initial_well_formed (u : string) : well_formed (initial u).
Proof.
  split; [apply initial_ids_below|].
  unfold pending_ids, single_cycle, pending. simpl. set_solver.
Qed.

(** ** One cycle at a time *)

Lemma useEffect_shape (o : options) (st : hook) :
  controller (useEffect o st) = Some (fresh st)
  ∧ timers (useEffect o st) = timers st
  ∧ (inflight (useEffect o st) = inflight st
     ∨ inflight (useEffect o st)
       = {| c_id := S (fresh st); c_url := url st; c_signal := fresh st;
            c_retryCount := 0 |} :: inflight st).
Proof.
  unfold useEffect.
  destruct (cleanup_frame st) as (Hu & _ & _ & _ & _ & _ & Hf & Hi & Ht).
  match goal with |- context [fetchData o ?u ?ac ?k ?s] =>
    destruct (fetchData_cases o u ac k s) as [(v & _ & ->)|(_ & ->)] end;
    simpl; rewrite Hf, Hi, Ht, ?Hu; auto.
Qed.

Lemma fetchPage_useEffect (o : options) (n : Z) (st : hook) :
  ∃ st0, fetchPage o n st = useEffect o st0
         ∧ fresh st0 = fresh st ∧ inflight st0 = inflight st
         ∧ timers st0 = timers st ∧ aborted st0 = aborted st
         ∧ controller st0 = controller st
         ∧ url st0 = url st +:+ "?page=" +:+ pretty n.
Proof.
  unfold fetchPage, rerender.
  match goal with |- context [useEffect o ?s] => exists s end.
  split.
  - replace (url (if onPageChange o then _ else _))
      with (url st +:+ "?page=" +:+ pretty n) by (by destruct (onPageChange o)).
    by rewrite append_page_differs.
  - by destruct (onPageChange o).
Qed.

Lemma pending_signal_below (st : hook) (c : call) :
  well_formed st → c ∈ pending st → (c_signal c < fresh st)%nat.
Proof.
  intros ([Hab Hct] & _ & Hown & _) Hin.
  destruct (Hown c Hin) as [Hc|Hc]; auto.
Qed.

Lemma useEffect_supersedes (o : options) (st : hook) (x : call) :
  well_formed st →
  x ∈ inflight (useEffect o st) → (c_id x < fresh st)%nat →
  is_aborted (c_signal x) (useEffect o st) = true.
Proof.
  intros Hst Hx Hid.
  pose proof (useEffect_well_formed o st Hst) as (_ & _ & Hown & _).
  destruct (useEffect_shape o st) as (Hctl & _ & Hin).
  unfold is_aborted. apply bool_decide_eq_true.
  destruct (Hown x) as [Hc|Hc]; [unfold pending; set_solver| |done].
  rewrite Hctl in Hc. injection Hc as Hc.
  assert (Hold : x ∈ inflight st).
  { destruct Hin as [Hin|Hin]; rewrite Hin in Hx; [done|].
    apply elem_of_cons in Hx as [->|Hx]; [simpl in Hid; lia|done]. }
  assert (c_signal x < fresh st)%nat; [|lia].
  apply pending_signal_below; [done|]. unfold pending. set_solver.
Qed.

Lemma well_formed_setters (st st' : hook) :
  fresh st' = fresh st → inflight st' = inflight st → timers st' = timers st →
  aborted st' = aborted st → controller st' = controller st →
  well_formed st → well_formed st'.
Proof.
  intros Hf Hi Ht Ha Hc.
  unfold well_formed, ids_below, pending_ids, single_cycle, pending.
  by rewrite Hf, Hi, Ht, Ha, Hc.
Qed.

Lemma restart_supersedes (o : options) (st : hook) (ev : event) (x : call) :
  well_formed st → restarts ev = true →
  x ∈ inflight (step o st ev) → (c_id x < fresh st)%nat →
  is_aborted (c_signal x) (step o st ev) = true.
Proof.
  intros Hst Hev. destruct ev as [id out|id| | |u|n| |]; try done; cbn [step].
  - by apply useEffect_supersedes.
  - destruct (fetchPage_useEffect o n st) as (st0 & -> & Hf & Hi & Ht & Ha & Hc & _).
    rewrite <-Hf. apply useEffect_supersedes.
    by apply (well_formed_setters st).
  - unfold fetchMore.
    destruct (fetchPage_useEffect o (page st + 1) st)
      as (st0 & -> & Hf & Hi & Ht & Ha & Hc & _).
    rewrite <-Hf. apply useEffect_supersedes.
    by apply (well_formed_setters st).
  - intros Hx _.
    pose proof (cleanup_well_formed st Hst) as (_ & _ & Hown & _).
    unfold is_aborted. apply bool_decide_eq_true.
    destruct (Hown x) as [Hc|Hc]; [unfold pending; set_solver| |done].
    unfold cleanup in Hc. destruct (controller st) eqn:?; simpl in Hc; congruence.
Qed.

(** What the settling of a request with an aborted signal leaves alone. *)
Lemma settles_aborted (o : options) (st : hook) (id : nat) (out : outcome)
    (c : call) (rest : list call) :
  take_call id (inflight st) = Some (c, rest) →
  is_aborted (c_signal c) st = true →
  let st' := step o st (Settles id out) in
  data st' = data st ∧ error st' = error st
  ∧ cacheRef st' = cacheRef st
  ∧ batchedRequestsRef st' = batchedRequestsRef st
  ∧ url st' = url st ∧ page st' = page st
  ∧ requests st' = requests st
  ∧ authentication_errors st' = authentication_errors st.
Proof.
  intros Htake Hab st'. subst st'. cbn [step]. rewrite Htake, Hab.
  unfold settled, canceled, rejected, setTimeout, is_aborted in *. simpl.
  rewrite Hab. simpl.
  destruct (c_retryCount c <? retries o); destruct (c_retryCount c =? 0); simpl;
    unfold requests, authentication_errors; simpl;
    rewrite ?omap_app; simpl; rewrite ?app_nil_r; done.
Qed.

Lemma take_call_is_Some (id : nat) (l : list call) (c : call) :
  c ∈ l → c_id c = id → ∃ c' rest, take_call id l = Some (c', rest).
Proof.
  intros Hin Hid. destruct (take_call id l) as [[c' rest]|] eqn:Htake; [eauto|].
  by destruct (take_call_None id l Htake c Hin).
Qed.

(** X1.  The answer of a superseded request is never shown.  In any state
    the hook reaches, once the effect has run again or has been cleaned up
    ([fetchPage], [fetchMore], a re-run, unmount), a request that was in
    flight before changes neither [data], [error], the cache, the batch
    buffer nor the locator when it settles, whatever the server answers, and
    calls neither axios nor [onAuthenticationError] (a retry may still be
    scheduled, which the retry test of line 78 does not prevent). *)
Theorem superseded_answer_is_discarded
    (o : options) (initialUrl : string) (evs : list event)
    (ev : event) (c : call) (out : outcome) :
  let st := run o evs (initial initialUrl) in
  restarts ev = true →
  c ∈ inflight st →
  let st1 := step o st ev in
  let st2 := step o st1 (Settles (c_id c) out) in
  data st2 = data st1 ∧ error st2 = error st1
  ∧ cacheRef st2 = cacheRef st1
  ∧ batchedRequestsRef st2 = batchedRequestsRef st1
  ∧ url st2 = url st1 ∧ page st2 = page st1
  ∧ requests st2 = requests st1
  ∧ authentication_errors st2 = authentication_errors st1.
Proof.
  intros st Hev Hc st1 st2.
  assert (Hst : well_formed st)
    by (apply run_well_formed, initial_well_formed).
  assert (Hid : (c_id c < fresh st)%nat).
  { destruct Hst as (_ & Hpid & _). apply Hpid. unfold pending. set_solver. }
  destruct (take_call (c_id c) (inflight st1)) as [[c' rest]|] eqn:Htake.
  - destruct (take_call_Some _ _ _ _ Htake) as (Hid' & Hin' & _).
    apply (settles_aborted o st1 (c_id c) out c' rest Htake).
    apply restart_supersedes; [done|done|done|lia].
  - subst st2. cbn [step]. by rewrite Htake.
Qed.

(** The witness: the first request for [/items] is in flight when
    [fetchPage(2)] is called, and is then answered. *)
Lemma superseded_answer_is_discarded_witness :
  let st1 := step cached (run cached [Rerun] (initial "/items")) (FetchPage 2) in
  let st2 := step cached st1 (Settles 1 (Fulfilled (VStr "a"))) in
  data st2 = data st1 ∧ cacheRef st2 = cacheRef st1.
Proof.
  destruct (superseded_answer_is_discarded cached "/items" [Rerun] (FetchPage 2)
              {| c_id := 1; c_url := "/items"; c_signal := 0; c_retryCount := 0 |}
              (Fulfilled (VStr "a")) eq_refl)
    as (Hd & _ & Hc & _).
  - vm_compute. left.
  - split; assumption.
Defined.

(** X2.  At most one cycle is live.  In any state the hook reaches, every
    suspended call (a request in flight or a retry waiting for its timer)
    carries the signal of the effect that is installed or an aborted one,
    the installed signal is not aborted, and when no effect is installed
    every suspended call is aborted. *)
Theorem at_most_one_live_cycle (o : options) (initialUrl : string) (evs : list event) :
  let st := run o evs (initial initialUrl) in
  (∀ c, c ∈ pending st →
        controller st = Some (c_signal c) ∨ is_aborted (c_signal c) st = true)
  ∧ (∀ ac, controller st = Some ac → is_aborted ac st = false)
  ∧ (controller st = None →
     ∀ c, c ∈ pending st → is_aborted (c_signal c) st = true).
Proof.
  intros st.
  assert (Hst : well_formed st)
    by (apply run_well_formed, initial_well_formed).
  destruct Hst as (_ & _ & Hown & Hcur). unfold is_aborted.
  split; [|split].
  - intros c Hc. destruct (Hown c Hc); [by left|right].
    by apply bool_decide_eq_true.
  - intros ac Hac. apply bool_decide_eq_false. by apply Hcur.
  - intros Hnone c Hc. apply bool_decide_eq_true.
    destruct (Hown c Hc); [congruence|done].
Qed.

(** The witness: after a failed attempt and [fetchPage(2)] the retry of the
    first cycle waits with the aborted signal 0, and the installed signal 3 is
    not aborted. *)
Lemma at_most_one_live_cycle_witness :
  let st := run retrying [Rerun; Settles 1 http_500; FetchPage 2]
                (initial "/items") in
  let t := {| c_id := 2; c_url := "/items"; c_signal := 0; c_retryCount := 1 |} in
  t ∈ pending st
  ∧ (controller st = Some (c_signal t) ∨ is_aborted (c_signal t) st = true)
  ∧ is_aborted 3 st = false.
Proof.
  intros st t.
  destruct (at_most_one_live_cycle retrying "/items"
              [Rerun; Settles 1 http_500; FetchPage 2]) as (Hown & Hcur & _).
  assert (Hin : t ∈ pending st) by (vm_compute; right; left).
  split; [exact Hin|]. split; [exact (Hown t Hin)|].
  apply Hcur. vm_compute. reflexivity.
Defined.

(** ** Unmount and timers *)

Lemma fetchData_timers (o : options) (u : string) (ac : nat) (k : Z) (st : hook) :
  timers (fetchData o u ac k st) = timers st.
Proof. by destruct (fetchData_cases o u ac k st) as [(v & _ & ->)|(_ & ->)]. Qed.

Lemma settled_interval (o : options) (c : call) (out : outcome) (st : hook) :
  interval (settled o c out st) = interval st.
Proof.
  unfold settled, fulfilled, rejected, general, setTimeout.
  by repeat case_match.
Qed.

Lemma useEffect_interval (o : options) (st : hook) :
  interval (useEffect o st) = polls o.
Proof.
  unfold useEffect.
  match goal with |- context [fetchData o ?u ?ac ?k ?s] =>
    by destruct (fetchData_frame o u ac k s) as (_ & _ & _ & _ & _ & _ & ->) end.
Qed.

Lemma useEffect_interval_installed (o : options) (st : hook) :
  interval_installed o (useEffect o st).
Proof.
  unfold interval_installed. rewrite useEffect_interval.
  destruct (useEffect_shape o st) as (-> & _). done.
Qed.

Lemma step_interval_installed (o : options) (st : hook) (ev : event) :
  interval_installed o st → interval_installed o (step o st ev).
Proof.
  intros Hst. destruct ev as [id out|id| | |u|n| |]; cbn [step].
  - destruct (take_call id (inflight st)) as [[c rest]|]; [|done].
    unfold interval_installed in *. rewrite settled_interval.
    match goal with |- context [settled o c ?out' ?s] =>
      by destruct (settled_ids o c out' s) as (_ & -> & _) end.
  - destruct (take_call id (timers st)) as [[c rest]|]; [|done].
    unfold interval_installed in *.
    match goal with |- context [fetchData o ?u ?ac ?k ?s] =>
      by destruct (fetchData_frame o u ac k s) as (_ & _ & _ & _ & _ & -> & ->) end.
  - destruct (controller st) as [ac|] eqn:Hctl; [|done].
    destruct (interval st) eqn:Hint; [|done].
    unfold interval_installed in *.
    destruct (fetchData_frame o (url st) ac 0 st) as (_ & _ & _ & _ & _ & -> & ->).
    intros _. destruct (Hst Hint) as [Hp _]. split; [done|]. by rewrite Hctl.
  - apply useEffect_interval_installed.
  - unfold rerender. destruct (String.eqb _ _); [done|].
    apply useEffect_interval_installed.
  - destruct (fetchPage_useEffect o n st) as (st0 & -> & _).
    apply useEffect_interval_installed.
  - unfold fetchMore.
    destruct (fetchPage_useEffect o (page st + 1) st) as (st0 & -> & _).
    apply useEffect_interval_installed.
  - unfold interval_installed, cleanup. by destruct (controller st) eqn:?.
Qed.

Lemma run_interval_installed (o : options) (evs : list event) (st : hook) :
  interval_installed o st → interval_installed o (run o evs st).
Proof.
  revert st. induction evs as [|ev evs IH]; intros st Hst; [done|].
  unfold run in *. simpl. by apply IH, step_interval_installed.
Qed.

Lemma initial_interval_installed (o : options) (u : string) :
  interval_installed o (initial u).
Proof. done. Qed.

(** X3.  Unmounting, in any state the hook reaches: no effect and no
    interval stay installed, every suspended call is aborted, a poll tick
    and a second cleanup do nothing; but the requests and the retry timers
    themselves stay suspended, since the cleanup clears no timer. *)
Theorem unmount_aborts_every_cycle (o : options) (initialUrl : string) (evs : list event) :
  let st := run o evs (initial initialUrl) in
  let st' := step o st Unmount in
  controller st' = None ∧ interval st' = false
  ∧ (∀ c, c ∈ pending st' → is_aborted (c_signal c) st' = true)
  ∧ inflight st' = inflight st ∧ timers st' = timers st
  ∧ step o st' PollTick = st'
  ∧ step o st' Unmount = st'.
Proof.
  intros st st'.
  assert (Hint : interval_installed o st)
    by (apply run_interval_installed, initial_interval_installed).
  assert (Hnone : controller st' = None ∧ interval st' = false).
  { subst st'. cbn [step]. unfold cleanup.
    destruct (controller st) eqn:Hc; [done|]. split; [done|].
    destruct (interval st) eqn:Hi; [|done].
    destruct (Hint Hi) as [_ Hsome]. congruence. }
  destruct Hnone as [Hctl Hi].
  assert (Hwf : well_formed st')
    by (apply step_well_formed, run_well_formed, initial_well_formed).
  destruct Hwf as (_ & _ & Hown & _).
  destruct (cleanup_frame st) as (_ & _ & _ & _ & _ & _ & _ & Hin & Htm).
  repeat split; try done.
  - intros c Hc. unfold is_aborted. apply bool_decide_eq_true.
    destruct (Hown c Hc); [congruence|done].
  - cbn [step]. by rewrite Hctl.
  - cbn [step]. unfold cleanup. by rewrite Hctl.
Qed.

(** The witness: a retry is waiting and the effect sent a new request when
    the component unmounts. *)
Lemma unmount_aborts_every_cycle_witness :
  let st := run retrying [Rerun; Settles 1 http_500; FetchPage 2]
                (initial "/items") in
  let st' := step retrying st Unmount in
  let t := {| c_id := 2; c_url := "/items"; c_signal := 0; c_retryCount := 1 |} in
  t ∈ pending st' ∧ is_aborted (c_signal t) st' = true
  ∧ timers st' = [t] ∧ controller st' = None.
Proof.
  intros st st' t.
  destruct (unmount_aborts_every_cycle retrying "/items"
              [Rerun; Settles 1 http_500; FetchPage 2])
    as (Hctl & _ & Hall & _ & Htm & _).
  assert (Hin : t ∈ pending st') by (vm_compute; right; left).
  split; [exact Hin|]. split; [exact (Hall t Hin)|]. split; [|exact Hctl].
  vm_compute. reflexivity.
Defined.

(** X4.  A retry timer is never cleared: whatever else happens to the hook
    (a locator change, a re-run of the effect, unmount, other calls
    settling), a scheduled retry stays scheduled until its own timer
    fires. *)
Theorem retry_timer_is_never_cleared
    (o : options) (st : hook) (ev : event) (t : call) :
  t ∈ timers st →
  ev ≠ TimerFires (c_id t) →
  t ∈ timers (step o st ev).
Proof.
  intros Ht Hev. destruct ev as [id out|id| | |u|n| |]; cbn [step].
  - destruct (take_call id (inflight st)) as [[c rest]|]; [|done].
    match goal with |- context [settled o c ?out' ?s] =>
      destruct (settled_pending o c out' s) as (_ & [[-> _]|[-> _]]) end;
      simpl; set_solver.
  - destruct (take_call id (timers st)) as [[c rest]|] eqn:Htake; [|done].
    destruct (take_call_Some _ _ _ _ Htake) as (Hid & _ & _ & Hcases).
    rewrite fetchData_timers. simpl.
    destruct (Hcases t Ht) as [->|Hrest]; [|done].
    by subst id.
  - destruct (controller st) as [ac|]; [|done].
    destruct (interval st); [|done]. by rewrite fetchData_timers.
  - by destruct (useEffect_shape o st) as (_ & -> & _).
  - unfold rerender. destruct (String.eqb _ _); [done|].
    by destruct (useEffect_shape o (setUrl u st)) as (_ & -> & _).
  - destruct (fetchPage_useEffect o n st) as (st0 & -> & _ & _ & Htm & _).
    destruct (useEffect_shape o st0) as (_ & -> & _). by rewrite Htm.
  - unfold fetchMore.
    destruct (fetchPage_useEffect o (page st + 1) st)
      as (st0 & -> & _ & _ & Htm & _).
    destruct (useEffect_shape o st0) as (_ & -> & _). by rewrite Htm.
  - by destruct (cleanup_frame st) as (_ & _ & _ & _ & _ & _ & _ & _ & ->).
Qed.

(** The witness: the retry scheduled by the first failure survives the
    unmount. *)
Lemma retry_timer_is_never_cleared_witness :
  let st := run retrying [Rerun; Settles 1 http_500] (initial "/items") in
  let t := {| c_id := 2; c_url := "/items"; c_signal := 0; c_retryCount := 1 |} in
  t ∈ timers st ∧ t ∈ timers (step retrying st Unmount).
Proof.
  intros st t.
  assert (Hin : t ∈ timers st) by (vm_compute; left).
  split; [exact Hin|].
  apply (retry_timer_is_never_cleared retrying st Unmount t Hin).
  discriminate.
Defined.

(** ** Polling *)

(** X5.  Without a truthy [pollInterval] ([null] or [0]) no interval is
    ever running: in any state the hook reaches a poll tick changes
    nothing. *)
Theorem no_polling_without_interval
    (o : options) (initialUrl : string) (evs : list event) :
  polls o = false →
  let st := run o evs (initial initialUrl) in
  interval st = false ∧ step o st PollTick = st.
Proof.
  intros Hp st.
  assert (Hint : interval_installed o st)
    by (apply run_interval_installed, initial_interval_installed).
  assert (Hi : interval st = false).
  { destruct (interval st) eqn:Hi; [|done].
    destruct (Hint Hi) as [Hp' _]. congruence. }
  split; [done|]. cbn [step]. rewrite Hi. by destruct (controller st).
Qed.

(** The witness: [pollInterval = 0]. *)
Lemma no_polling_without_interval_witness :
  let o := {| transformData := Returns; retries := 0; retryDelay := 1000;
              cache := false; pollInterval := Some 0; batchSize := 1;
              onPageChange := false; onBatchedResponse := None;
              onAuthenticationError := false |} in
  let st := run o [Rerun; Settles 1 (Fulfilled (VStr "a"))] (initial "/items") in
  interval st = false ∧ step o st PollTick = st.
Proof.
  intros o st.
  apply (no_polling_without_interval o "/items"
           [Rerun; Settles 1 (Fulfilled (VStr "a"))]).
  reflexivity.
Defined.

(** X6.  A poll tick supersedes nothing: it aborts no signal, keeps the
    installed effect, and leaves every suspended call suspended; when an
    interval is running and the cache does not answer, its request is sent
    beside the ones already in flight, with the installed signal. *)
Theorem poll_tick_supersedes_nothing (o : options) (st : hook) (ac : nat) :
  let st' := step o st PollTick in
  aborted st' = aborted st ∧ controller st' = controller st
  ∧ timers st' = timers st
  ∧ (controller st = Some ac → interval st = true →
     cache_hit o (url st) st = None →
     inflight st'
     = {| c_id := fresh st; c_url := url st; c_signal := ac; c_retryCount := 0 |}
       :: inflight st).
Proof.
  intros st'. subst st'. cbn [step].
  destruct (controller st) as [ac'|] eqn:Hctl; [|done].
  destruct (interval st) eqn:Hint; [|done].
  destruct (fetchData_frame o (url st) ac' 0 st) as (_ & _ & _ & _ & -> & -> & _).
  rewrite fetchData_timers. repeat split; try done.
  intros [= ->] _ Hmiss. by rewrite fetchData_miss.
Qed.

(** The witness: a poll tick while the first request is still in flight. *)
Lemma poll_tick_supersedes_nothing_witness :
  let st := mount polling "/items" in
  inflight (step polling st PollTick)
  = [{| c_id := 2; c_url := "/items"; c_signal := 0; c_retryCount := 0 |};
     {| c_id := 1; c_url := "/items"; c_signal := 0; c_retryCount := 0 |}].
Proof.
  intros st.
  destruct (poll_tick_supersedes_nothing polling st 0) as (_ & _ & _ & Hin).
  apply Hin; reflexivity.
Defined.

(** ** Loading without retries *)

Lemma fetchData_first_attempt (o : options) (u : string) (ac : nat) (st : hook) :
  first_attempts_only st →
  first_attempts_only (fetchData o u ac 0 st)
  ∧ (loading (fetchData o u ac 0 st) = true → inflight (fetchData o u ac 0 st) ≠ []).
Proof.
  intros (Htm & Hd & Hrc). unfold first_attempts_only.
  destruct (fetchData_cases o u ac 0 st) as [(v & _ & ->)|(_ & ->)].
  - simpl. repeat split; try done.
  - unfold await_axios. rewrite delays_log, app_nil_r. simpl.
    repeat split; try done.
    intros c [->|Hc]%elem_of_cons; [done|by apply Hrc].
Qed.

Lemma settled_first_attempt (o : options) (c : call) (out : outcome) (st : hook) :
  retries o ≤ 0 → c_retryCount c = 0 →
  first_attempts_only st →
  first_attempts_only (settled o c out st)
  ∧ loading (settled o c out st) = false.
Proof.
  intros HR Hc (Htm & Hd & Hrc). unfold first_attempts_only, settled. rewrite Hc.
  simpl.
  assert (Hnot : (0 <? retries o) = false) by (apply Z.ltb_ge; lia).
  destruct out as [raw|resp code|msg].
  - unfold fulfilled, general, delays in *.
    repeat case_match; simpl; repeat split; done.
  - unfold rejected. rewrite Hc, Hnot.
    unfold delays in *.
    repeat case_match; simpl; rewrite ?omap_app, ?Hd; simpl;
      repeat split; done.
  - unfold general, delays in *. simpl. repeat split; done.
Qed.

Lemma useEffect_first_attempt (o : options) (st : hook) :
  first_attempts_only st →
  first_attempts_only (useEffect o st)
  ∧ (loading (useEffect o st) = true → inflight (useEffect o st) ≠ []).
Proof.
  intros (Htm & Hd & Hrc). unfold useEffect. apply fetchData_first_attempt.
  destruct (cleanup_frame st) as (_ & _ & _ & _ & Ht & _ & _ & Hi & Htm').
  unfold first_attempts_only, delays in *. simpl. by rewrite Ht, Hi, Htm'.
Qed.

(** [fetchPage] always changes the locator, so the effect always runs. *)
Lemma fetchPage_paged (o : options) (n : Z) (st : hook) :
  fetchPage o n st = useEffect o (paged o n st).
Proof.
  unfold fetchPage, rerender. fold (paged o n st).
  replace (url (paged o n st)) with (url st +:+ "?page=" +:+ pretty n)
    by (unfold paged; by destruct (onPageChange o)).
  by rewrite append_page_differs.
Qed.

Lemma paged_frame (o : options) (n : Z) (st : hook) :
  url (paged o n st) = url st +:+ "?page=" +:+ pretty n
  ∧ page (paged o n st) = n
  ∧ data (paged o n st) = data st ∧ loading (paged o n st) = loading st
  ∧ error (paged o n st) = error st
  ∧ cacheRef (paged o n st) = cacheRef st
  ∧ batchedRequestsRef (paged o n st) = batchedRequestsRef st
  ∧ inflight (paged o n st) = inflight st ∧ timers (paged o n st) = timers st
  ∧ fresh (paged o n st) = fresh st
  ∧ requests (paged o n st) = requests st ∧ delays (paged o n st) = delays st
  ∧ authentication_errors (paged o n st) = authentication_errors st.
Proof.
  unfold paged. destruct (onPageChange o); simpl;
    rewrite ?requests_log, ?delays_log, ?authentication_errors_log, ?app_nil_r,
      ?Nat.add_0_r; done.
Qed.

Lemma step_first_attempt (o : options) (st : hook) (ev : event) :
  retries o ≤ 0 →
  first_attempts_only st ∧ (loading st = true → inflight st ≠ []) →
  first_attempts_only (step o st ev)
  ∧ (loading (step o st ev) = true → inflight (step o st ev) ≠ []).
Proof.
  intros HR [Hst Hl]. pose proof Hst as (Htm & Hd & Hrc).
  assert (Hpaged : ∀ n, first_attempts_only (paged o n st)).
  { intros n.
    destruct (paged_frame o n st)
      as (_ & _ & _ & _ & _ & _ & _ & Hi & Ht & _ & _ & Hdl & _).
    unfold first_attempts_only. by rewrite Hi, Ht, Hdl. }
  destruct ev as [id out|id| | |u|n| |]; cbn [step].
  - destruct (take_call id (inflight st)) as [[c rest]|] eqn:Htake; [|done].
    destruct (take_call_Some _ _ _ _ Htake) as (_ & Hc & Hrest & _).
    match goal with |- context [settled o c ?out' ?s] =>
      destruct (settled_first_attempt o c out' s HR) as [H1 H2] end.
    + by apply Hrc.
    + unfold first_attempts_only, delays in *. simpl. repeat split; try done.
      intros x Hx. apply Hrc. by apply Hrest.
    + split; [done|]. by rewrite H2.
  - rewrite Htm. done.
  - destruct (controller st) as [ac|]; [|done].
    destruct (interval st); [|done]. by apply fetchData_first_attempt.
  - by apply useEffect_first_attempt.
  - unfold rerender. destruct (String.eqb _ _); [done|].
    by apply useEffect_first_attempt.
  - rewrite fetchPage_paged. by apply useEffect_first_attempt.
  - unfold fetchMore. rewrite fetchPage_paged. by apply useEffect_first_attempt.
  - destruct (cleanup_frame st) as (_ & _ & _ & _ & Ht & _ & _ & Hi & Htm').
    unfold first_attempts_only, delays in *. rewrite Ht, Hi, Htm'.
    split; [done|]. unfold cleanup. by destruct (controller st).
Qed.

(** X7.  Without retries [loading] is never stuck.  With [retries <= 0],
    in any state the hook reaches after its mount no timer was ever set,
    and [loading] is [true] only while a request is in flight: once nothing
    is in flight, [loading] is [false]. *)
Theorem loading_settles_without_retries
    (o : options) (initialUrl : string) (evs : list event) :
  retries o ≤ 0 →
  let st := run o evs (mount o initialUrl) in
  timers st = [] ∧ delays st = []
  ∧ (inflight st = [] → loading st = false).
Proof.
  intros HR st.
  assert (Hinv : first_attempts_only st ∧ (loading st = true → inflight st ≠ [])).
  { assert (Hinit : first_attempts_only (initial initialUrl)).
    { repeat split. intros c Hc. by apply elem_of_nil in Hc. }
    subst st. generalize (useEffect_first_attempt o (initial initialUrl) Hinit).
    unfold mount. generalize (useEffect o (initial initialUrl)). clear Hinit.
    induction evs as [|ev evs IH]; intros s Hs; [done|].
    unfold run in *. simpl. apply IH. by apply step_first_attempt. }
  destruct Hinv as ((Htm & Hd & _) & Hl).
  repeat split; try done.
  intros Hnil. destruct (loading st); [|done]. by destruct Hl.
Qed.

(** The witness: the defaults, a request that fails and a poll-free run. *)
Lemma loading_settles_without_retries_witness :
  let st := run defaults [Settles 1 http_500; FetchMore; Settles 3 http_500]
                (mount defaults "/items") in
  inflight st = [] ∧ loading st = false ∧ delays st = [].
Proof.
  intros st.
  destruct (loading_settles_without_retries defaults "/items"
              [Settles 1 http_500; FetchMore; Settles 3 http_500])
    as (_ & Hd & Hl); [simpl; lia|].
  assert (Hnil : inflight st = []) by (vm_compute; reflexivity).
  split; [exact Hnil|]. split; [exact (Hl Hnil)|exact Hd].
Defined.

(** ** The cache store *)

Lemma settled_cacheRef_cases (o : options) (c : call) (out : outcome) (st : hook) :
  cacheRef (settled o c out st) = cacheRef st
  ∨ ∃ v, cacheRef (settled o c out st) = <[c_url c := v]> (cacheRef st).
Proof.
  unfold settled, fulfilled, rejected, general, setTimeout.
  repeat case_match; simpl; eauto.
Qed.

Lemma step_cacheRef_cases (o : options) (st : hook) (ev : event) :
  cacheRef (step o st ev) = cacheRef st
  ∨ ∃ c v, c ∈ inflight st ∧ cacheRef (step o st ev) = <[c_url c := v]> (cacheRef st).
Proof.
  destruct ev as [id out|id| | |u|n| |]; cbn [step].
  - destruct (take_call id (inflight st)) as [[c rest]|] eqn:Htake; [|by left].
    destruct (take_call_Some _ _ _ _ Htake) as (_ & Hc & _).
    match goal with |- context [settled o c ?out' ?s] =>
      destruct (settled_cacheRef_cases o c out' s) as [->|[v ->]] end;
      [by left|right; by exists c, v].
  - destruct (take_call id (timers st)) as [[c rest]|]; [|by left].
    match goal with |- context [fetchData o ?u ?ac ?k ?s] =>
      by destruct (fetchData_frame o u ac k s) as (_ & _ & -> & _); left end.
  - destruct (controller st) as [ac|]; [|by left].
    destruct (interval st); [|by left].
    by destruct (fetchData_frame o (url st) ac 0 st) as (_ & _ & -> & _); left.
  - by destruct (useEffect_frame o st) as (_ & _ & -> & _); left.
  - by destruct (rerender_frame o (url st) (setUrl u st)) as (-> & _); left.
  - by destruct (fetchPage_frame o n st) as (-> & _); left.
  - unfold fetchMore.
    by destruct (fetchPage_frame o (page st + 1) st) as (-> & _); left.
  - by destruct (cleanup_frame st) as (_ & _ & -> & _); left.
Qed.

(** X8.  The cache never evicts: a locator that has an entry keeps one
    along every run of the hook, whatever happens. *)
Theorem cache_never_evicts
    (o : options) (evs : list event) (st : hook) (k : string) :
  is_Some (cacheRef st !! k) →
  is_Some (cacheRef (run o evs st) !! k).
Proof.
  revert st. induction evs as [|ev evs IH]; intros st Hk; [done|].
  unfold run in *. simpl. apply IH.
  destruct (step_cacheRef_cases o st ev) as [->|(c & v & _ & ->)]; [done|].
  destruct (decide (c_url c = k)) as [->|Hne].
  - rewrite lookup_insert_eq. eauto.
  - by rewrite lookup_insert_ne.
Qed.

(** The witness: the entry for [/items] survives pagination, a failure and
    the unmount. *)
Lemma cache_never_evicts_witness :
  let st := run cached [Settles 1 (Fulfilled (VStr "a"))] (mount cached "/items") in
  is_Some (cacheRef st !! "/items"%string)
  ∧ is_Some (cacheRef (run cached [FetchPage 2; Settles 3 http_500; Unmount] st)
             !! "/items"%string).
Proof.
  intros st.
  assert (Hk : is_Some (cacheRef st !! "/items"%string))
    by (exists (VStr "a"); vm_compute; reflexivity).
  split; [exact Hk|].
  exact (cache_never_evicts cached [FetchPage 2; Settles 3 http_500; Unmount]
           st "/items" Hk).
Defined.

Lemma settled_trace (o : options) (c : call) (out : outcome) (st : hook) :
  requests (settled o c out st) = requests st.
Proof.
  unfold settled, fulfilled, rejected, general, setTimeout, requests.
  repeat case_match; simpl; rewrite ?omap_app; simpl; by rewrite ?app_nil_r.
Qed.

Lemma fetchData_all_requested (o : options) (u : string) (ac : nat) (k : Z) (st : hook) :
  all_requested st → all_requested (fetchData o u ac k st).
Proof.
  intros [Hp Hk]. unfold all_requested, pending in *.
  destruct (fetchData_cases o u ac k st) as [(v & _ & ->)|(_ & ->)]; [done|].
  unfold await_axios. rewrite requests_log. simpl.
  change (requests _) with (requests st). split.
  - intros c [->|Hc]%elem_of_cons; simpl; [set_solver|].
    apply elem_of_app. left. by apply Hp.
  - intros key Hkey. apply elem_of_app. left. by apply Hk.
Qed.

Lemma all_requested_setters (st st' : hook) :
  inflight st' = inflight st → timers st' = timers st →
  cacheRef st' = cacheRef st → requests st' = requests st →
  all_requested st → all_requested st'.
Proof.
  intros Hi Ht Hc Hr. unfold all_requested, pending. by rewrite Hi, Ht, Hc, Hr.
Qed.

Lemma useEffect_all_requested (o : options) (st : hook) :
  all_requested st → all_requested (useEffect o st).
Proof.
  intros Hst. unfold useEffect. apply fetchData_all_requested.
  destruct (cleanup_frame st) as (_ & _ & Hc & _ & Ht & _ & _ & Hi & Htm).
  apply (all_requested_setters st); try done.
  unfold requests. simpl. by rewrite Ht.
Qed.

Lemma paged_all_requested (o : options) (n : Z) (st : hook) :
  all_requested st → all_requested (paged o n st).
Proof.
  destruct (paged_frame o n st)
    as (_ & _ & _ & _ & _ & Hc & _ & Hi & Ht & _ & Hr & _).
  by apply all_requested_setters.
Qed.

Lemma step_all_requested (o : options) (st : hook) (ev : event) :
  all_requested st → all_requested (step o st ev).
Proof.
  intros Hst. pose proof Hst as [Hp Hk].
  destruct ev as [id out|id| | |u|n| |]; cbn [step].
  - destruct (take_call id (inflight st)) as [[c rest]|] eqn:Htake; [|done].
    destruct (take_call_Some _ _ _ _ Htake) as (_ & Hc & Hrest & _).
    assert (Hcu : c_url c ∈ requests st) by (apply Hp; unfold pending; set_solver).
    unfold all_requested, pending in *.
    match goal with |- context [settled o c ?out' ?s] =>
      rewrite (settled_trace o c out' s);
      destruct (settled_pending o c out' s) as (-> & Htm);
      destruct (settled_cacheRef_cases o c out' s) as [->|[v ->]] end;
      change (requests _) with (requests st); simpl; split.
    + intros x [Hx|Hx]%elem_of_app; [apply Hp; set_solver|].
      destruct Htm as [[Htm _]|[Htm _]]; rewrite Htm in Hx;
        [apply Hp; set_solver|].
      apply elem_of_cons in Hx as [->|Hx]; [done|apply Hp; set_solver].
    + done.
    + intros x [Hx|Hx]%elem_of_app; [apply Hp; set_solver|].
      destruct Htm as [[Htm _]|[Htm _]]; rewrite Htm in Hx;
        [apply Hp; set_solver|].
      apply elem_of_cons in Hx as [->|Hx]; [done|apply Hp; set_solver].
    + intros key. destruct (decide (c_url c = key)) as [<-|Hne]; [done|].
      rewrite lookup_insert_ne by done. apply Hk.
  - destruct (take_call id (timers st)) as [[c rest]|] eqn:Htake; [|done].
    destruct (take_call_Some _ _ _ _ Htake) as (_ & Hc & Hrest & _).
    apply fetchData_all_requested.
    unfold all_requested, pending in *. simpl. split; [|done].
    intros x Hx. apply Hp. set_solver.
  - destruct (controller st) as [ac|]; [|done].
    destruct (interval st); [|done]. by apply fetchData_all_requested.
  - by apply useEffect_all_requested.
  - unfold rerender. destruct (String.eqb _ _); [done|].
    by apply useEffect_all_requested.
  - rewrite fetchPage_paged. by apply useEffect_all_requested, paged_all_requested.
  - unfold fetchMore. rewrite fetchPage_paged.
    by apply useEffect_all_requested, paged_all_requested.
  - destruct (cleanup_frame st) as (_ & _ & Hc & _ & Ht & _ & _ & Hi & Htm).
    apply (all_requested_setters st); try done.
    unfold requests. by rewrite Ht.
Qed.

Lemma run_all_requested (o : options) (evs : list event) (st : hook) :
  all_requested st → all_requested (run o evs st).
Proof.
  revert st. induction evs as [|ev evs IH]; intros st Hst; [done|].
  unfold run in *. simpl. by apply IH, step_all_requested.
Qed.

Lemma initial_all_requested (u : string) : all_requested (initial u).
Proof.
  split; simpl.
  - intros c Hc. by apply elem_of_nil in Hc.
  - intros k [v Hv]. by rewrite lookup_empty in Hv.
Qed.

(** X9.  Only locators that were fetched are cached: in any state the hook
    reaches, every locator with a cache entry is one a request was sent
    to, and so is the locator of every suspended call. *)
Theorem cached_locators_were_requested
    (o : options) (initialUrl : string) (evs : list event) :
  let st := run o evs (initial initialUrl) in
  (∀ k, is_Some (cacheRef st !! k) → k ∈ requests st)
  ∧ (∀ c, c ∈ pending st → c_url c ∈ requests st).
Proof.
  intros st.
  destruct (run_all_requested o evs (initial initialUrl)
              (initial_all_requested initialUrl)) as [Hp Hk].
  by split.
Qed.

(** The witness: the entry for [/items] after one answer. *)
Lemma cached_locators_were_requested_witness :
  let st := run cached [Rerun; Settles 1 (Fulfilled (VStr "a")); FetchPage 2]
                (initial "/items") in
  is_Some (cacheRef st !! "/items"%string) ∧ "/items"%string ∈ requests st.
Proof.
  intros st.
  destruct (cached_locators_were_requested cached "/items"
              [Rerun; Settles 1 (Fulfilled (VStr "a")); FetchPage 2]) as [Hk _].
  assert (Hin : is_Some (cacheRef st !! "/items"%string))
    by (exists (VStr "a"); vm_compute; reflexivity).
  split; [exact Hin|exact (Hk _ Hin)].
Defined.

Lemma settled_cacheRef_off (o : options) (c : call) (out : outcome) (st : hook) :
  cache o = false → cacheRef (settled o c out st) = cacheRef st.
Proof.
  intros Hc. unfold settled, fulfilled, rejected, general, setTimeout.
  rewrite Hc. by repeat case_match.
Qed.

Lemma step_cacheRef_off (o : options) (st : hook) (ev : event) :
  cache o = false → cacheRef (step o st ev) = cacheRef st.
Proof.
  intros Hc. destruct ev as [id out|id| | |u|n| |]; cbn [step].
  - destruct (take_call id (inflight st)) as [[c' rest]|]; [|done].
    by rewrite settled_cacheRef_off.
  - destruct (take_call id (timers st)) as [[c' rest]|]; [|done].
    match goal with |- context [fetchData o ?u ?ac ?k ?s] =>
      by destruct (fetchData_frame o u ac k s) as (_ & _ & -> & _) end.
  - destruct (controller st) as [ac|]; [|done].
    destruct (interval st); [|done].
    by destruct (fetchData_frame o (url st) ac 0 st) as (_ & _ & -> & _).
  - by destruct (useEffect_frame o st) as (_ & _ & -> & _).
  - by destruct (rerender_frame o (url st) (setUrl u st)) as (-> & _).
  - by destruct (fetchPage_frame o n st) as (-> & _).
  - unfold fetchMore.
    by destruct (fetchPage_frame o (page st + 1) st) as (-> & _).
  - by destruct (cleanup_frame st) as (_ & _ & -> & _).
Qed.

Lemma run_cacheRef_off (o : options) (evs : list event) (st : hook) :
  cache o = false → cacheRef (run o evs st) = cacheRef st.
Proof.
  intros Hc. revert st. induction evs as [|ev evs IH]; intros st; [done|].
  unfold run in *. simpl. by rewrite IH, step_cacheRef_off.
Qed.

(** X10.  With [cache = false] the cache store is never written and never
    read: it is empty in every state the hook reaches, and every call of
    [fetchData] (a start, a poll tick, a retry) sends a request. *)
Theorem cache_off_always_fetches
    (o : options) (initialUrl : string) (evs : list event) :
  cache o = false →
  let st := run o evs (initial initialUrl) in
  cacheRef st = ∅
  ∧ ∀ u ac k,
      requests (fetchData o u ac k st) = requests st ++ [u]
      ∧ data (fetchData o u ac k st) = data st.
Proof.
  intros Hc st.
  assert (Hempty : cacheRef st = ∅).
  { subst st. by rewrite run_cacheRef_off. }
  split; [done|]. intros u ac k.
  assert (Hmiss : cache_hit o u st = None) by (unfold cache_hit; by rewrite Hc).
  rewrite fetchData_requests, Hmiss. split; [done|].
  by rewrite fetchData_miss.
Qed.

(** The witness: the defaults, two starts on the same locator. *)
Lemma cache_off_always_fetches_witness :
  let st := run defaults [Rerun; Settles 1 (Fulfilled (VStr "a"))]
                (initial "/items") in
  cacheRef st = ∅ ∧ requests (step defaults st Rerun) = ["/items"; "/items"].
Proof.
  intros st.
  destruct (cache_off_always_fetches defaults "/items"
              [Rerun; Settles 1 (Fulfilled (VStr "a"))] eq_refl) as [He _].
  split; [exact He|]. vm_compute. reflexivity.
Defined.

(** ** Pagination *)

Lemma fetchPage_url_page (o : options) (n : Z) (st : hook) :
  url (fetchPage o n st) = url st +:+ "?page=" +:+ pretty n
  ∧ page (fetchPage o n st) = n.
Proof.
  rewrite fetchPage_paged.
  destruct (useEffect_frame o (paged o n st)) as (-> & -> & _).
  by destruct (paged_frame o n st) as (-> & -> & _).
Qed.


Lemma append_inj_l (s t t' : string) : s +:+ t = s +:+ t' → t = t'.
Proof.
  induction s as [|a s IH]; simpl; [done|]. intros [= Heq]. by apply IH.
Qed.

(** X12.  Different pages, different locators: from the same state,
    [fetchPage(n)] and [fetchPage(m)] lead to the same locator only when
    [n = m], and the locator [fetchPage] leads to is never the current
    one. *)
Theorem fetchPage_locator_determines_page (o : options) (n m : Z) (st : hook) :
  (url (fetchPage o n st) = url (fetchPage o m st) → n = m)
  ∧ url (fetchPage o n st) ≠ url st.
Proof.
  destruct (fetchPage_url_page o n st) as (-> & _).
  destruct (fetchPage_url_page o m st) as (-> & _).
  split.
  - intros Heq. apply append_inj_l in Heq.
    apply (append_inj_l "?page=") in Heq. by apply (inj pretty) in Heq.
  - intros Heq. symmetry in Heq. apply String.eqb_eq in Heq.
    by rewrite append_page_differs in Heq.
Qed.

(** The witness: pages 2 and 3 of [/items]. *)
Lemma fetchPage_locator_determines_page_witness :
  url (fetchPage defaults 2 (mount defaults "/items"))
  ≠ url (fetchPage defaults 3 (mount defaults "/items")).
Proof.
  intros Heq.
  destruct (fetchPage_locator_determines_page defaults 2 3 (mount defaults "/items"))
    as [Hinj _].
  specialize (Hinj Heq). discriminate Hinj.
Defined.






(** ** Errors that are not transport errors *)

(** X14.  An error that is not an [AxiosError] is terminal at once.  When
    a request whose signal is not aborted is rejected with something else
    than an [AxiosError], or is answered but [transformData] throws, the
    hook sets [error] to the message with type [general] and no status,
    whatever [retries] and the retry count are: no retry is scheduled, no
    request is sent, and [data], the cache and the batch buffer stay as
    they are. *)
Theorem other_errors_are_never_retried
    (o : options) (st : hook) (id : nat) (out : outcome) (msg : string)
    (c : call) (rest : list call) :
  take_call id (inflight st) = Some (c, rest) →
  is_aborted (c_signal c) st = false →
  out = OtherError msg
  ∨ (∃ raw, out = Fulfilled raw ∧ transformData o raw = Throws msg) →
  let st' := step o st (Settles id out) in
  error st' = Some {| message := VStr msg; err_status := None; type := "general" |}
  ∧ timers st' = timers st ∧ delays st' = delays st
  ∧ requests st' = requests st
  ∧ data st' = data st ∧ cacheRef st' = cacheRef st
  ∧ batchedRequestsRef st' = batchedRequestsRef st
  ∧ inflight st' = rest.
Proof.
  intros Htake Hab Hout st'. subst st'. cbn [step]. rewrite Htake, Hab.
  unfold settled, requests, delays.
  destruct Hout as [->|(raw & -> & Hthrow)]; unfold fulfilled, general;
    rewrite ?Hthrow; by destruct (c_retryCount c =? 0).
Qed.

(** The witness: three retries are allowed, and [transformData] throws on
    the first answer. *)
Lemma other_errors_are_never_retried_witness :
  let o := {| transformData := λ _, Throws "not an array"; retries := 3;
              retryDelay := 1000; cache := true; pollInterval := None;
              batchSize := 1; onPageChange := false; onBatchedResponse := None;
              onAuthenticationError := false |} in
  let st' := step o (mount o "/items") (Settles 1 (Fulfilled (VStr "a"))) in
  error st' = Some {| message := VStr "not an array"; err_status := None;
                      type := "general" |}
  ∧ timers st' = [] ∧ data st' = VNull ∧ cacheRef st' = ∅.
Proof.
  intros o st'.
  destruct (other_errors_are_never_retried o (mount o "/items") 1
              (Fulfilled (VStr "a")) "not an array"
              {| c_id := 1; c_url := "/items"; c_signal := 0; c_retryCount := 0 |} [])
    as (He & Ht & _ & _ & Hd & Hc & _).
  - reflexivity.
  - reflexivity.
  - right. exists (VStr "a"). split; reflexivity.
  - repeat split; assumption.
Defined.

(** ** Degenerate batch sizes *)





(** ** The authentication callback along a run *)

Lemma authentication_errors_eq (st st' : hook) :
  trace st' = trace st → authentication_errors st' = authentication_errors st.
Proof. unfold authentication_errors. by intros ->. Qed.

Lemma settled_authentication_errors (o : options) (c : call) (out : outcome) (st : hook) :
  authentication_errors (settled o c out st)
  = (authentication_errors st
     + match out with
       | AxiosError resp _ => if is_401 resp && onAuthenticationError o then 1 else 0
       | _ => 0
       end)%nat.
Proof.
  unfold settled, fulfilled, rejected, general, setTimeout, authentication_errors.
  repeat case_match; simpl; rewrite ?omap_app, ?length_app; simpl; lia.
Qed.

Lemma fetchData_authentication_errors (o : options) (u : string) (ac : nat) (k : Z)
    (st : hook) :
  authentication_errors (fetchData o u ac k st) = authentication_errors st.
Proof.
  destruct (fetchData_cases o u ac k st) as [(v & _ & ->)|(_ & ->)]; [done|].
  unfold await_axios. rewrite authentication_errors_log. simpl.
  unfold authentication_errors. simpl. lia.
Qed.

Lemma useEffect_authentication_errors (o : options) (st : hook) :
  authentication_errors (useEffect o st) = authentication_errors st.
Proof.
  unfold useEffect. rewrite fetchData_authentication_errors.
  destruct (cleanup_frame st) as (_ & _ & _ & _ & Ht & _).
  by apply authentication_errors_eq.
Qed.

Lemma step_authentication_errors (o : options) (st : hook) (ev : event) :
  (authentication_errors st ≤ authentication_errors (step o st ev)
   ≤ authentication_errors st
     + if onAuthenticationError o && is_401_answer ev then 1 else 0)%nat.
Proof.
  destruct ev as [id out|id| | |u|n| |]; cbn [step is_401_answer];
    rewrite ?andb_false_r.
  - destruct (take_call id (inflight st)) as [[c rest]|]; [|lia].
    rewrite settled_authentication_errors.
    change (authentication_errors (set_pending _ _ _ st))
      with (authentication_errors st).
    destruct (is_aborted (c_signal c) st); simpl; [lia|].
    destruct out as [raw|resp code|msg]; rewrite ?andb_false_r; try lia.
    rewrite (andb_comm (onAuthenticationError o)). case_match; lia.
  - destruct (take_call id (timers st)) as [[c rest]|]; [|lia].
    rewrite fetchData_authentication_errors.
    change (authentication_errors (set_pending _ _ _ st))
      with (authentication_errors st). lia.
  - destruct (controller st) as [ac|]; [|lia].
    destruct (interval st); [|lia]. rewrite fetchData_authentication_errors. lia.
  - rewrite useEffect_authentication_errors. lia.
  - unfold rerender. destruct (String.eqb _ _).
    + change (authentication_errors (setUrl u st)) with (authentication_errors st). lia.
    + rewrite useEffect_authentication_errors.
      change (authentication_errors (setUrl u st)) with (authentication_errors st). lia.
  - rewrite fetchPage_paged, useEffect_authentication_errors.
    destruct (paged_frame o n st)
      as (_ & _ & _ & _ & _ & _ & _ & _ & _ & _ & _ & _ & ->). lia.
  - unfold fetchMore. rewrite fetchPage_paged, useEffect_authentication_errors.
    destruct (paged_frame o (page st + 1) st)
      as (_ & _ & _ & _ & _ & _ & _ & _ & _ & _ & _ & _ & ->). lia.
  - destruct (cleanup_frame st) as (_ & _ & _ & _ & Ht & _).
    rewrite (authentication_errors_eq st (cleanup st) Ht). lia.
Qed.

(** X16.  [onAuthenticationError] is called for 401 answers only: along
    any run, from any state, the number of its calls grows by at most the
    number of rejections that carry an HTTP 401 answer, and it does not
    grow at all when the callback is not provided. *)
Theorem authentication_errors_bounded_by_401_answers
    (o : options) (evs : list event) (st : hook) :
  (authentication_errors st ≤ authentication_errors (run o evs st)
   ≤ authentication_errors st
     + if onAuthenticationError o
       then length (filter (λ ev, is_401_answer ev = true) evs)
       else 0)%nat.
Proof.
  revert st. induction evs as [|ev evs IH]; intros st.
  - unfold run. simpl. destruct (onAuthenticationError o); lia.
  - unfold run in *. simpl. specialize (IH (step o st ev)).
    pose proof (step_authentication_errors o st ev) as Hstep.
    rewrite filter_cons.
    destruct (onAuthenticationError o); simpl in *; [|lia].
    destruct (decide _) as [Heq|Hne]; simpl in *.
    + rewrite Heq in Hstep. lia.
    + apply not_true_is_false in Hne. rewrite Hne in Hstep. lia.
Qed.

(** ** A cycle that recovers *)

Lemma settles_then_shows (o : options) (c : call) (tl : list call)
    (raw td : value) (st : hook) :
  inflight st = c :: tl →
  is_aborted (c_signal c) st = false →
  batchSize o = 1 →
  transformData o raw = Returns td →
  let st1 := step o st (Settles (c_id c) (Fulfilled raw)) in
  data st1 = td ∧ error st1 = None
  ∧ loading st1 = (if c_retryCount c =? 0 then false else loading st)
  ∧ requests st1 = requests st ∧ delays st1 = delays st
  ∧ inflight st1 = tl ∧ timers st1 = timers st.
Proof.
  intros Hin Hab HN Htd st1. subst st1. cbn [step].
  rewrite Hin, take_call_head, Hab. unfold settled, fulfilled.
  rewrite Htd, HN. simpl.
  destruct (cache o); destruct (c_retryCount c =? 0); done.
Qed.

Lemma timer_fires_then_loads (o : options) (t : call) (tl : list call) (st : hook) :
  timers st = t :: tl →
  cache_hit o (c_url t) st = None →
  let st2 := step o st (TimerFires (c_id t)) in
  loading st2 = true ∧ timers st2 = tl ∧ data st2 = data st.
Proof.
  intros Htm Hmiss st2. subst st2. cbn [step].
  rewrite Htm, take_call_head. rewrite fetchData_miss; [done|].
  by rewrite (cache_hit_ext o (c_url t) st).
Qed.

Lemma recovering_chain (o : options) (u : string) (ac : nat) (raw td : value)
    (errs : list (option response * string)) :
  ∀ (k : Z) (id : nat) (tl : list call) (st : hook),
    k + Z.of_nat (length errs) ≤ retries o →
    batchSize o = 1 →
    transformData o raw = Returns td →
    inflight st = {| c_id := id; c_url := u; c_signal := ac;
                     c_retryCount := k |} :: tl →
    fresh st = S id →
    is_aborted ac st = false →
    cache_hit o u st = None →
    loading st = true →
    let st' := run o (recovering_attempts id errs raw) st in
    requests st' = requests st ++ replicate (length errs) u
    ∧ delays st'
      = delays st
        ++ ((λ j, retryDelay o * j) <$> seqZ (k + 1) (Z.of_nat (length errs)))
    ∧ data st' = td ∧ error st' = None
    ∧ loading st' = negb (k + Z.of_nat (length errs) =? 0)
    ∧ timers st' = timers st.
Proof.
  induction errs as [|e rest IH];
    intros k id tl st Hlen HN Htd Hin Hfresh Hab Hmiss Hload.
  - set (c := {| c_id := id; c_url := u; c_signal := ac; c_retryCount := k |}) in *.
    destruct (settles_then_shows o c tl raw td st Hin Hab HN Htd)
      as (Hd & He & Hl & Hr & Hdl & _ & Htm).
    change (c_id c) with id in *. change (c_retryCount c) with k in *.
    unfold run. cbn [recovering_attempts foldl].
    set (st1 := step o st (Settles id (Fulfilled raw))) in *.
    rewrite Hr, Hdl, Hl, Hload. simpl. rewrite !app_nil_r, Z.add_0_r.
    repeat split; try done; by destruct (k =? 0).
  - set (c := {| c_id := id; c_url := u; c_signal := ac; c_retryCount := k |}) in *.
    assert (Hk : k < retries o) by (simpl in Hlen; lia).
    destruct (settles_then_retries o c tl e.1 e.2 st Hin Hab Hk)
      as (Htm & Hf1 & He1 & Hr1 & Hd1 & Hab1 & Hc1).
    change (c_id c) with id in *. change (c_url c) with u in *.
    change (c_signal c) with ac in *. change (c_retryCount c) with k in *.
    set (st1 := step o st (Settles id (AxiosError e.1 e.2))) in *.
    set (t := {| c_id := fresh st; c_url := u; c_signal := ac;
                 c_retryCount := k + 1 |}) in *.
    assert (Hmiss1 : cache_hit o (c_url t) st1 = None)
      by (rewrite (cache_hit_ext o u st); done).
    destruct (timer_fires_then_requests o t (timers st) st1 Htm Hmiss1)
      as (Hin2 & Hf2 & He2 & Hr2 & Hd2 & Hab2 & Hc2).
    destruct (timer_fires_then_loads o t (timers st) st1 Htm Hmiss1)
      as (Hl2 & Htm2 & _).
    change (c_id t) with (fresh st) in *. change (c_url t) with u in *.
    change (c_signal t) with ac in *. change (c_retryCount t) with (k + 1) in *.
    rewrite Hfresh in *.
    set (st2 := step o st1 (TimerFires (S id))) in *.
    destruct (IH (k + 1) (S (S id)) (inflight st1) st2)
      as (Hr & Hd & Hdata & He & Hl & Htm').
    + simpl in Hlen. lia.
    + done.
    + done.
    + by rewrite Hin2, Hf1.
    + by rewrite Hf2, Hf1.
    + unfold is_aborted in *. by rewrite Hab2, Hab1.
    + rewrite (cache_hit_ext o u st); [done|]. by rewrite Hc2, Hc1.
    + done.
    + unfold run in *. cbn [recovering_attempts foldl]. fold st1. fold st2.
      rewrite Hr, Hd, Hdata, He, Hl, Htm', Htm2, Hr2, Hr1, Hd2, Hd1.
      rewrite <-!app_assoc.
      repeat split.
      * f_equal. rewrite (seqZ_cons (k + 1)) by (simpl; lia). simpl.
        replace (Z.succ (k + 1)) with (k + 1 + 1) by lia.
        replace (Z.pred (Z.of_nat (S (length rest))))
          with (Z.of_nat (length rest)) by lia.
        done.
      * f_equal. f_equal. simpl length. lia.
Qed.

(** X17.  A cycle that recovers.  With [batchSize = 1], when the first [n]
    attempts of a cycle ([n <= retries]) are rejected with transport errors
    and the next one is answered, and nothing supersedes the cycle: [n + 1]
    requests are sent, the timers are [retryDelay * 1, ..., retryDelay * n],
    [data] is the transformed answer and [error] is [null]; [loading] ends
    [false] when no retry was needed and [true] as soon as one was. *)
Theorem recovered_cycle_shows_answer
    (o : options) (u : string) (ac : nat)
    (errs : list (option response * string)) (raw td : value) (st : hook) :
  Z.of_nat (length errs) ≤ retries o →
  batchSize o = 1 →
  transformData o raw = Returns td →
  cache_hit o u st = None →
  is_aborted ac st = false →
  let st0 := fetchData o u ac 0 st in
  let st' := run o (recovering_attempts (fresh st) errs raw) st0 in
  requests st' = requests st ++ replicate (S (length errs)) u
  ∧ delays st'
    = delays st ++ ((λ j, retryDelay o * j) <$> seqZ 1 (Z.of_nat (length errs)))
  ∧ data st' = td ∧ error st' = None
  ∧ loading st' = match errs with [] => false | _ :: _ => true end
  ∧ timers st' = timers st.
Proof.
  intros Hlen HN Htd Hmiss Hab st0 st'.
  assert (Hst0 : st0 = await_axios u ac 0 (setError None (setLoading true st)))
    by (by apply fetchData_miss).
  destruct (recovering_chain o u ac raw td errs 0 (fresh st) (inflight st) st0)
    as (Hr & Hd & Hdata & He & Hl & Htm); try done.
  - by rewrite Hst0.
  - by rewrite Hst0.
  - by rewrite Hst0.
  - by rewrite Hst0, (cache_hit_ext o u st).
  - by rewrite Hst0.
  - fold st' in Hr, Hd, Hdata, He, Hl, Htm.
    assert (Hr0 : requests st0 = requests st ++ [u]).
    { rewrite Hst0. unfold await_axios. by rewrite requests_log. }
    assert (Hd0 : delays st0 = delays st).
    { rewrite Hst0. unfold await_axios. rewrite delays_log. by rewrite app_nil_r. }
    rewrite Hr, Hr0, Hd, Hd0, Hl, Htm, Hst0, <-app_assoc.
    repeat split; try done.
    by destruct errs.
Qed.

(** The witness: [retries = 2], [retryDelay = 100], two HTTP 500 answers and
    then the list. *)
Lemma recovered_cycle_shows_answer_witness :
  let o := {| transformData := Returns; retries := 2; retryDelay := 100;
              cache := false; pollInterval := None; batchSize := 1;
              onPageChange := false; onBatchedResponse := None;
              onAuthenticationError := false |} in
  let e := (Some {| status := 500; body := VNull |}, "ERR_BAD_RESPONSE") in
  let st' := run o (recovering_attempts 1 [e; e] (VArr [VStr "x"]))
                 (mount o "/items") in
  requests st' = ["/items"; "/items"; "/items"]
  ∧ delays st' = [100; 200]
  ∧ data st' = VArr [VStr "x"] ∧ error st' = None ∧ loading st' = true.
Proof.
  intros o e st'.
  destruct (recovered_cycle_shows_answer o "/items" 0 [e; e]
              (VArr [VStr "x"]) (VArr [VStr "x"])
              (set_effect (Some 0%nat) false ∅
                 (set_pending [] [] 1 (initial "/items"))))
    as (Hr & Hd & Hdata & He & Hl & _).
  - simpl. lia.
  - reflexivity.
  - reflexivity.
  - reflexivity.
  - reflexivity.
  - repeat split; assumption.
Defined.

(** ** The earlier version *)

Section refines_legacy.
Context (o : options).
Hypothesis one_by_one : batchSize o = 1.
Hypothesis no_polling : polls o = false.
Hypothesis no_authentication_callback : onAuthenticationError o = false.
Hypothesis no_page_callback : onPageChange o = false.

Lemma settled_legacy (c : call) (out : outcome) (st : hook) :
  settled o c out st = Legacy.settled o c out st.
Proof.
  unfold settled, Legacy.settled. f_equal.
  destruct out as [raw|resp code|msg]; [| |done].
  - unfold fulfilled, Legacy.fulfilled. by rewrite one_by_one.
  - unfold rejected, Legacy.rejected.
    by rewrite no_authentication_callback, andb_false_r.
Qed.

Lemma useEffect_legacy (st : hook) : useEffect o st = Legacy.useEffect o st.
Proof. unfold useEffect, Legacy.useEffect. by rewrite no_polling. Qed.

Lemma fetchMore_legacy (st : hook) : fetchMore o st = Legacy.fetchMore o st.
Proof.
  unfold fetchMore, fetchPage, Legacy.fetchMore, rerender, Legacy.rerender.
  rewrite no_page_callback. simpl. by rewrite useEffect_legacy.
Qed.

Lemma step_legacy (st : hook) (ev : event) :
  in_legacy ev = true → interval st = false →
  step o st ev = Legacy.step o st ev ∧ interval (step o st ev) = false.
Proof.
  intros Hev Hint.
  assert (Hno : interval_installed o st) by (intros Hi; congruence).
  pose proof (step_interval_installed o st ev Hno) as Hinst.
  assert (Hfalse : interval (step o st ev) = false).
  { destruct (interval (step o st ev)) eqn:Hi; [|done].
    destruct (Hinst Hi) as [Hp _]. congruence. }
  split; [|done]. clear Hinst Hfalse Hno.
  destruct ev as [id out|id| | |u|n| |]; try done; cbn [step Legacy.step].
  - destruct (take_call id (inflight st)) as [[c rest]|]; [|done].
    apply settled_legacy.
  - rewrite Hint. by destruct (controller st).
  - apply useEffect_legacy.
  - unfold rerender, Legacy.rerender. by rewrite useEffect_legacy.
  - apply fetchMore_legacy.
Qed.

End refines_legacy.

(** X18.  The current hook extends the earlier one conservatively.  With
    [batchSize = 1], no truthy [pollInterval], no [onAuthenticationError]
    and no [onPageChange], every run that does not call [fetchPage] (which
    the earlier hook does not have) takes the current hook and the earlier
    hook through the same states, from the mount on. *)
Theorem extended_hook_agrees_with_earlier_version
    (o : options) (initialUrl : string) (evs : list event) :
  batchSize o = 1 →
  polls o = false →
  onAuthenticationError o = false →
  onPageChange o = false →
  Forall (λ ev, in_legacy ev = true) evs →
  run o evs (mount o initialUrl) = Legacy.run o evs (Legacy.mount o initialUrl).
Proof.
  intros HN Hp Ha Hc Hevs.
  unfold mount, Legacy.mount. rewrite <-(useEffect_legacy o Hp).
  assert (Hint : interval (useEffect o (initial initialUrl)) = false)
    by (by rewrite useEffect_interval).
  revert Hint. generalize (useEffect o (initial initialUrl)).
  induction Hevs as [|ev evs Hev _ IH]; intros s Hint; [done|].
  unfold run, Legacy.run in *. simpl.
  destruct (step_legacy o HN Hp Ha Hc s ev Hev Hint) as [<- Hint'].
  by apply IH.
Qed.

(** The witness: the defaults; a failure, [fetchMore], an answer, unmount. *)
Lemma extended_hook_agrees_with_earlier_version_witness :
  let evs := [Settles 1 http_500; FetchMore; PollTick;
              Settles 3 (Fulfilled (VStr "a")); Unmount] in
  run cached evs (mount cached "/items")
  = Legacy.run cached evs (Legacy.mount cached "/items").
Proof.
  intros evs.
  apply (extended_hook_agrees_with_earlier_version cached "/items" evs);
    try reflexivity.
  repeat constructor.
Defined.

(** ** Stale data *)

(** X19.  A failure never clears what is shown: when a request settles
    with anything but an answer (a transport error, a cancellation, any
    other error), in any state and whether or not it is retried, [data],
    the cache and the batch buffer stay as they were. *)
Theorem failures_keep_data (o : options) (st : hook) (id : nat) (out : outcome) :
  (∀ raw, out ≠ Fulfilled raw) →
  let st' := step o st (Settles id out) in
  data st' = data st ∧ cacheRef st' = cacheRef st
  ∧ batchedRequestsRef st' = batchedRequestsRef st.
Proof.
  intros Hout st'. subst st'. cbn [step].
  destruct (take_call id (inflight st)) as [[c rest]|]; [|done].
  unfold settled.
  match goal with |- context [if _ then setLoading false ?s else ?s] =>
    destruct (finally_frame c s) as (-> & -> & -> & _) end.
  destruct (is_aborted (c_signal c) st); unfold canceled.
  - match goal with |- context [rejected o c ?r ?code ?s] =>
      by destruct (rejected_frame o c r code s) as (-> & -> & -> & _) end.
  - destruct out as [raw|resp code|msg]; [by destruct (Hout raw)| |done].
    match goal with |- context [rejected o c ?r ?code ?s] =>
      by destruct (rejected_frame o c r code s) as (-> & -> & -> & _) end.
Qed.

(** The witness: an answer is shown, the next cycle fails for good. *)
Lemma failures_keep_data_witness :
  let st := run defaults [Settles 1 (Fulfilled (VStr "a")); Rerun]
                (mount defaults "/items") in
  let st' := step defaults st (Settles 3 http_500) in
  data st' = VStr "a" ∧ error st' ≠ None.
Proof.
  intros st st'.
  destruct (failures_keep_data defaults st 3 http_500) as (Hd & _).
  - intros raw. discriminate.
  - split; [exact Hd|]. vm_compute. discriminate.
Defined.
